(** * App_flow: login, registration and password-recovery screens

  A shallow embedding of the form logic of the React Native screens
  (LoginScreen, RegisterScreen, ForgotPasswordScreen) and of the start-up
  check of App.tsx, followed by the properties proved about them.

  Conventions of the embedding:
  - a JavaScript string is the list of its UTF-16 code units;
  - a regular expression literal is a term of [Regex.regex], run by a
    derivative matcher that is proved equivalent to the usual
    language-of-a-regex semantics;
  - a component is a record of its [useState] cells; an event handler is a
    function on that record;
  - an [async] handler is cut at its [await]: the part before it runs when
    the handler is called, the part after it when the awaited promise
    settles;
  - calls to the platform (Keychain, AsyncStorage, Alert, navigation,
    console) are written to a log, and a promise of a native module may
    reject. *)

From Stdlib Require Import NArith Ascii String DecimalString List Bool Lia.
From stdpp Require Import base option list gmap strings.

Set Default Proof Using "Type".
Open Scope N_scope.

(* ===================================================================== *)
(** * JavaScript strings *)
(* ===================================================================== *)

Module JS.

(** A string value: its UTF-16 code units, in order. *)
Abbreviation jsstring := (list N).

(** A string literal of the source (all of them are ASCII). *)
Definition js (s : string) : jsstring :=
  map N_of_ascii (list_ascii_of_string s).
Global Arguments js : simpl never.

(** [!!s] for a string: only the empty string is falsy. *)
Definition truthy (s : jsstring) : bool :=
  match s with
  | [] => false
  | _ :: _ => true
  end.

(** [s.length] *)
Definition strlen (s : jsstring) : nat := List.length s.

(** [a === b] on strings. *)
Definition streq (a b : jsstring) : bool := bool_decide (a = b).

(** [[0-9]], which is also what [\d] means without the [u] flag. *)
Definition is_digit (c : N) : bool := (48 <=? c) && (c <=? 57).

(** [[a-z]] *)
Definition is_lower (c : N) : bool := (97 <=? c) && (c <=? 122).

(** [[A-Z]] *)
Definition is_upper (c : N) : bool := (65 <=? c) && (c <=? 90).

(** The code units of ['@'] and ['.']. *)
Definition at_sign : N := 64.
Definition full_stop : N := 46.

(** ECMAScript LineTerminator: LF, CR, LS, PS. *)
Definition is_line_terminator (c : N) : bool :=
  (c =? 10) || (c =? 13) || (c =? 8232) || (c =? 8233).

(** [\s], and the characters removed by [String.prototype.trim]:
    ECMAScript WhiteSpace and LineTerminator. *)
Definition is_space (c : N) : bool :=
  ((9 <=? c) && (c <=? 13))            (* TAB LF VT FF CR *)
  || (c =? 32) || (c =? 160)           (* SP NBSP *)
  || (c =? 5760)                       (* U+1680 *)
  || ((8192 <=? c) && (c <=? 8202))    (* U+2000 .. U+200A *)
  || (c =? 8232) || (c =? 8233)        (* LS PS *)
  || (c =? 8239) || (c =? 8287)        (* U+202F U+205F *)
  || (c =? 12288) || (c =? 65279).     (* U+3000 U+FEFF *)

Fixpoint trimStart (s : jsstring) : jsstring :=
  match s with
  | [] => []
  | c :: s' => if is_space c then trimStart s' else s
  end.

Definition trimEnd (s : jsstring) : jsstring :=
  rev (trimStart (rev s)).

(** [s.trim()] *)
Definition trim (s : jsstring) : jsstring := trimEnd (trimStart s).

(** [s.replace(/[^0-9]/g, '')]: every non-digit is removed. *)
Definition remove_non_digits (s : jsstring) : jsstring :=
  List.filter is_digit s.

(** [s.slice(0, n)] for [n >= 0]. *)
Definition slice0 (n : nat) (s : jsstring) : jsstring := firstn n s.

End JS.

(* ===================================================================== *)
(** * Regular expressions *)
(* ===================================================================== *)

Module Regex.

(** The fragment of the regular expression syntax that the screens use.
    A character class is given by its membership test on code units. *)
Inductive regex : Type :=
| Void : regex
| Eps : regex
| Class : (N -> bool) -> regex
| Seq : regex -> regex -> regex
| Alt : regex -> regex -> regex
| Star : regex -> regex.

(** [r+] *)
Definition Plus (r : regex) : regex := Seq r (Star r).

(** A literal character. *)
Definition Chr (c : N) : regex := Class (N.eqb c).

(** [.] (no [s] flag): anything but a line terminator. *)
Definition Dot : regex := Class (fun c => negb (JS.is_line_terminator c)).

Fixpoint nullable (r : regex) : bool :=
  match r with
  | Void => false
  | Eps => true
  | Class _ => false
  | Seq r1 r2 => nullable r1 && nullable r2
  | Alt r1 r2 => nullable r1 || nullable r2
  | Star _ => true
  end.

(** Brzozowski derivative of [r] by the code unit [c]. *)
Fixpoint deriv (c : N) (r : regex) : regex :=
  match r with
  | Void => Void
  | Eps => Void
  | Class p => if p c then Eps else Void
  | Seq r1 r2 =>
      if nullable r1
      then Alt (Seq (deriv c r1) r2) (deriv c r2)
      else Seq (deriv c r1) r2
  | Alt r1 r2 => Alt (deriv c r1) (deriv c r2)
  | Star r1 => Seq (deriv c r1) (Star r1)
  end.

(** [/^r$/.test(s)]: the whole of [s] is matched by [r]. *)
Fixpoint test_anchored (r : regex) (s : list N) : bool :=
  match s with
  | [] => nullable r
  | c :: s' => test_anchored (deriv c r) s'
  end.

(** [r] matches some prefix of [s]: a lookahead [(?=r)] at the start of
    [s]. *)
Fixpoint lookahead (r : regex) (s : list N) : bool :=
  nullable r ||
  match s with
  | [] => false
  | c :: s' => lookahead (deriv c r) s'
  end.

(** [/(?=r)/.test(s)]: the pattern is not anchored, so the lookahead is
    tried at every index of [s], from 0 to [s.length]. *)
Fixpoint test_lookahead (r : regex) (s : list N) : bool :=
  lookahead r s ||
  match s with
  | [] => false
  | _ :: s' => test_lookahead r s'
  end.

(** The language of a regular expression. *)
Inductive Lang : regex -> list N -> Prop :=
| L_eps : Lang Eps []
| L_class p c : p c = true -> Lang (Class p) [c]
| L_seq r1 r2 u v : Lang r1 u -> Lang r2 v -> Lang (Seq r1 r2) (u ++ v)
| L_alt_l r1 r2 u : Lang r1 u -> Lang (Alt r1 r2) u
| L_alt_r r1 r2 u : Lang r2 u -> Lang (Alt r1 r2) u
| L_star_nil r : Lang (Star r) []
| L_star_app r u v : Lang r u -> Lang (Star r) v -> Lang (Star r) (u ++ v).

End Regex.

(* ===================================================================== *)
(** * The platform: alerts, navigation, keychain, AsyncStorage *)
(* ===================================================================== *)

Module Platform.
Import JS.

Inductive direction : Type := forward | backward.

(** A call that leaves the component, as it appears in the log. *)
Inductive effect : Type :=
| Alert (title message : jsstring)
| KeychainSet (username password : jsstring)
| KeychainReset
| StorageSet (key value : jsstring)
| NavReplace (route : jsstring)
| NavNavigate (route : jsstring)
| NavGoBack
| CallOnLoginSuccess
| CallOnRegisterSuccess
| ConsoleError (label : jsstring)
| ConsoleLog (label : jsstring)
| Animate (d : direction).

(** What a [try] block or an awaited promise comes to: a value, or a thrown
    error ([Some m] for an [Error] object with message [m]). *)
Inductive outcome (A : Type) : Type :=
| Returned (a : A)
| Thrown (err : option jsstring).
Arguments Returned {A} a.
Arguments Thrown {A} err.

(** [new Promise(resolve => setTimeout(resolve, ms))]: the executor has no
    [reject], the promise is fulfilled with [undefined]. *)
Definition timer_promise (ms : N) : outcome unit := Returned tt.

(** The device: the generic-password entry of the keychain, the AsyncStorage
    table, the fate of the coming promises of the native modules ([true]: the
    next one rejects; none listed: they resolve), and the log of calls, oldest
    first. *)
Record world : Type := {
  keychain : option (jsstring * jsstring);
  storage : gmap (list N) (list N);
  rejections : list bool;
  log : list effect
}.

Definition set_keychain (k : option (jsstring * jsstring)) (w : world) : world :=
  {| keychain := k; storage := storage w;
     rejections := rejections w; log := log w |}.

Definition set_storage (m : gmap (list N) (list N)) (w : world) : world :=
  {| keychain := keychain w; storage := m;
     rejections := rejections w; log := log w |}.

Definition set_rejections (r : list bool) (w : world) : world :=
  {| keychain := keychain w; storage := storage w;
     rejections := r; log := log w |}.

Definition add_log (e : effect) (w : world) : world :=
  {| keychain := keychain w; storage := storage w;
     rejections := rejections w; log := log w ++ [e] |}.

(** Computations over the device that may throw. *)
Definition M (A : Type) : Type := world -> outcome A * world.

Definition ret {A} (a : A) : M A := fun w => (Returned a, w).

Definition bind {A B} (m : M A) (k : A -> M B) : M B :=
  fun w =>
    match m w with
    | (Returned a, w') => k a w'
    | (Thrown e, w') => (Thrown e, w')
    end.

Declare Scope js_scope.
Delimit Scope js_scope with js.
Notation "x <- m ;; k" := (bind m (fun x => k))
  (at level 100, m at next level, right associativity) : js_scope.
Notation "m ;; k" := (bind m (fun _ => k))
  (at level 100, right associativity) : js_scope.

(** [try { body } catch (error) { handler }] *)
Definition try_catch {A} (body : M A) (handler : option jsstring -> M A) : M A :=
  fun w =>
    match body w with
    | (Returned a, w') => (Returned a, w')
    | (Thrown e, w') => handler e w'
    end.

(** A synchronous call that is only logged. *)
Definition emit (e : effect) : M unit :=
  fun w => (Returned tt, add_log e w).

(** [await] of a promise of a native module: it rejects if the device says so,
    and then has done nothing; otherwise [f] is its action and its value. *)
Definition native {A} (f : world -> A * world) : M A :=
  fun w =>
    match rejections w with
    | true :: r => (Thrown None, set_rejections r w)
    | false :: r => let (a, w') := f (set_rejections r w) in (Returned a, w')
    | [] => let (a, w') := f w in (Returned a, w')
    end.

Definition Keychain_setGenericPassword (username password : jsstring) : M unit :=
  native (fun w =>
    (tt, add_log (KeychainSet username password)
           (set_keychain (Some (username, password)) w))).

Definition Keychain_resetGenericPassword : M unit :=
  native (fun w => (tt, add_log KeychainReset (set_keychain None w))).

(** Resolves to [false] (here [None]) when nothing is stored. *)
Definition Keychain_getGenericPassword : M (option (jsstring * jsstring)) :=
  native (fun w => (keychain w, w)).

Definition AsyncStorage_setItem (key value : jsstring) : M unit :=
  native (fun w =>
    (tt, add_log (StorageSet key value)
           (set_storage (<[key := value]> (storage w)) w))).

(** Resolves to [null] (here [None]) when the key is absent. *)
Definition AsyncStorage_getItem (key : jsstring) : M (option jsstring) :=
  native (fun w => (storage w !! key, w)).

(** The entries of a log that write persistent state. *)
Definition is_write (e : effect) : bool :=
  match e with
  | KeychainSet _ _ | KeychainReset | StorageSet _ _ => true
  | _ => false
  end.

Definition is_navigation (e : effect) : bool :=
  match e with
  | NavReplace _ | NavNavigate _ | NavGoBack
  | CallOnLoginSuccess | CallOnRegisterSuccess => true
  | _ => false
  end.

Definition is_alert (e : effect) : bool :=
  match e with
  | Alert _ _ => true
  | _ => false
  end.

End Platform.

(* ===================================================================== *)
(** * LoginScreen (src/unnamed/part_000) *)
(* ===================================================================== *)

Module LoginScreen.
Import JS Platform.
Local Open Scope js_scope.

(** [LoginScreenProps]: both props are optional; only their presence
    matters here. *)
Record props : Type := { onLoginSuccess : bool; navigation : bool }.

Record state : Type := {
  username : jsstring;
  password : jsstring;
  rememberMe : bool;
  showPassword : bool
}.

Definition initial : state :=
  {| username := []; password := []; rememberMe := false;
     showPassword := false |}.

Definition setUsername (v : jsstring) (st : state) : state :=
  {| username := v; password := password st; rememberMe := rememberMe st;
     showPassword := showPassword st |}.

Definition setPassword (v : jsstring) (st : state) : state :=
  {| username := username st; password := v; rememberMe := rememberMe st;
     showPassword := showPassword st |}.

Definition setRememberMe (b : bool) (st : state) : state :=
  {| username := username st; password := password st; rememberMe := b;
     showPassword := showPassword st |}.

(** The body of the [try] block of [handleLogin]. *)
Definition handleLogin_try (pr : props) (st : state) : M unit :=
  if truthy (username st) && truthy (password st) then
    (if rememberMe st then
       Keychain_setGenericPassword (username st) (password st) ;;
       AsyncStorage_setItem (js "rememberMe") (js "true")
     else
       Keychain_resetGenericPassword ;;
       AsyncStorage_setItem (js "rememberMe") (js "false")) ;;
    if navigation pr then emit (NavReplace (js "Home"))
    else if onLoginSuccess pr then emit CallOnLoginSuccess
    else ret tt
  else
    emit (Alert (js "Error") (js "Invalid credentials")).

(** [handleLogin] reads [username], [password] and [rememberMe] once, from
    the render it was created in; it sets no state of the component. *)
Definition handleLogin (pr : props) (st : state) : M unit :=
  if negb (truthy (username st)) || negb (truthy (password st)) then
    emit (Alert (js "Error") (js "Please fill in all fields"))
  else
    try_catch (handleLogin_try pr st)
      (fun _ =>
         emit (Alert (js "Error") (js "Login failed. Please try again.")) ;;
         emit (ConsoleError (js "Login error:"))).

(** The mount effect. [st] is the state of the component when the awaited
    reads have settled; the result is its state after the setters. *)
Definition loadStoredCredentials (st : state) : M state :=
  try_catch
    (remember <- AsyncStorage_getItem (js "rememberMe") ;;
     if bool_decide (remember = Some (js "true")) then
       credentials <- Keychain_getGenericPassword ;;
       match credentials with
       | Some (u, p) => ret (setRememberMe true (setPassword p (setUsername u st)))
       | None => ret st
       end
     else ret st)
    (fun _ =>
       emit (ConsoleError (js "Failed to load saved credentials:")) ;;
       ret st).

(** ** Vocabulary of the properties *)

(** The two writes that a login is said to make. *)
Definition login_writes (st : state) : list effect :=
  if rememberMe st
  then [KeychainSet (username st) (password st);
        StorageSet (js "rememberMe") (js "true")]
  else [KeychainReset; StorageSet (js "rememberMe") (js "false")].

(** The navigation that follows them. *)
Definition login_navigation (pr : props) : list effect :=
  if navigation pr then [NavReplace (js "Home")]
  else if onLoginSuccess pr then [CallOnLoginSuccess]
  else [].

(** What the [catch] block of [handleLogin] logs. *)
Definition login_failure : list effect :=
  [Alert (js "Error") (js "Login failed. Please try again.");
   ConsoleError (js "Login error:")].

(** The next two promises of the native modules resolve. *)
Definition next_two_resolve (w : world) : bool :=
  match rejections w with
  | true :: _ => false
  | false :: true :: _ => false
  | _ => true
  end.

(** The log of a login with both fields filled in, by the fate of the two
    promises. *)
Definition login_log (pr : props) (st : state) (w : world) : list effect :=
  match rejections w with
  | true :: _ => login_failure
  | false :: true :: _ => take 1 (login_writes st) ++ login_failure
  | _ => login_writes st ++ login_navigation pr
  end.

(** A login succeeds: both fields are filled in and the [try] block runs to
    its end. *)
Definition login_succeeds (pr : props) (st : state) (w : world) : Prop :=
  username st <> [] /\ password st <> [] /\
  exists w', handleLogin_try pr st w = (Returned tt, w').

End LoginScreen.

(* ===================================================================== *)
(** * App (src/unnamed/part_002) *)
(* ===================================================================== *)

Module App.
Import JS Platform.
Local Open Scope js_scope.

Record state : Type := { isLoading : bool; isLoggedIn : bool }.

Definition initial : state := {| isLoading := true; isLoggedIn := false |}.

Definition setIsLoading (b : bool) (st : state) : state :=
  {| isLoading := b; isLoggedIn := isLoggedIn st |}.

Definition setIsLoggedIn (b : bool) (st : state) : state :=
  {| isLoading := isLoading st; isLoggedIn := b |}.

(** [!!userToken] for [string | null]. *)
Definition truthy_token (t : option jsstring) : bool :=
  match t with
  | Some s => truthy s
  | None => false
  end.

(** Where [checkLoginStatus] stands: at its first [await] (the 2000 ms
    timer), at its second (the read of AsyncStorage), or past [finally]. *)
Inductive progress : Type := AwaitTimer | AwaitGetItem | Finished.

Record app : Type := { comp : state; at_ : progress }.

(** The component as mounted, [checkLoginStatus] just called. *)
Definition mounted : app := {| comp := initial; at_ := AwaitTimer |}.

(** One settled promise of [checkLoginStatus]. *)
Definition advance (a : app) (w : world) : app * world :=
  match at_ a with
  | AwaitTimer =>
      match timer_promise 2000 with
      | Returned _ => ({| comp := comp a; at_ := AwaitGetItem |}, w)
      | Thrown _ =>
          ({| comp := setIsLoading false (comp a); at_ := Finished |},
           add_log (ConsoleLog (js "Error checking login status:")) w)
      end
  | AwaitGetItem =>
      match AsyncStorage_getItem (js "userToken") w with
      | (Returned userToken, w') =>
          ({| comp := setIsLoading false
                        (setIsLoggedIn (truthy_token userToken) (comp a));
              at_ := Finished |}, w')
      | (Thrown _, w') =>
          ({| comp := setIsLoading false (comp a); at_ := Finished |},
           add_log (ConsoleLog (js "Error checking login status:")) w')
      end
  | Finished => (a, w)
  end.

(** [checkLoginStatus] from call to completion. *)
Definition checkLoginStatus (w : world) : app * world :=
  let (a1, w1) := advance mounted w in advance a1 w1.

(** What [App] renders. *)
Inductive view : Type :=
| LoadingNavigator
| MainNavigator (initialRouteName : jsstring).

Definition render (st : state) : view :=
  if isLoading st then LoadingNavigator
  else MainNavigator (if isLoggedIn st then js "Home" else js "Login").

(** ** Vocabulary of the properties *)

(** The read of AsyncStorage rejects. *)
Definition read_rejects (w : world) : bool :=
  match rejections w with
  | true :: _ => true
  | _ => false
  end.

(** AsyncStorage holds a non-empty string under ['userToken']. *)
Definition holds_token (w : world) : Prop :=
  exists t, storage w !! js "userToken" = Some t /\ t <> [].

End App.

(* ===================================================================== *)
(** * RegisterScreen (src/src/screens/RegisterScreen.tsx) *)
(* ===================================================================== *)

Module RegisterScreen.
Import JS Regex Platform.

(** [[^\s@]] *)
Definition not_space_at (c : N) : bool :=
  negb (is_space c) && negb (c =? at_sign).

(** [/^[^\s@]+@[^\s@]+\.[^\s@]+$/] *)
Definition emailRegex : regex :=
  Seq (Plus (Class not_space_at))
    (Seq (Chr at_sign)
       (Seq (Plus (Class not_space_at))
          (Seq (Chr full_stop) (Plus (Class not_space_at))))).

Definition validateEmail (email : jsstring) : bool :=
  test_anchored emailRegex email.

Record PasswordValidation : Type :=
  { isValid : bool; message : option jsstring }.

Definition validatePassword (password : jsstring) : PasswordValidation :=
  if (strlen password <? 8)%nat then
    {| isValid := false;
       message := Some (js "Password must be at least 8 characters long") |}
  else if negb (test_lookahead (Seq (Star Dot) (Class is_lower)) password) then
    {| isValid := false;
       message := Some (js "Password must contain at least one lowercase letter") |}
  else if negb (test_lookahead (Seq (Star Dot) (Class is_upper)) password) then
    {| isValid := false;
       message := Some (js "Password must contain at least one uppercase letter") |}
  else if negb (test_lookahead (Seq (Star Dot) (Class is_digit)) password) then
    {| isValid := false;
       message := Some (js "Password must contain at least one number") |}
  else
    {| isValid := true; message := None |}.

(** [[a-zA-Z\s]] *)
Definition letter_or_space (c : N) : bool :=
  is_lower c || is_upper c || is_space c.

Definition validateName (name : jsstring) : bool :=
  (2 <=? strlen (trim name))%nat
  && test_anchored (Plus (Class letter_or_space)) (trim name).

(** [RegisterScreenProps]: both props are optional. *)
Record props : Type := { onRegisterSuccess : bool; navigation : bool }.

(** [interface FormErrors]: every field is optional. *)
Module Errors.
Record FormErrors : Type := {
  name : option jsstring;
  email : option jsstring;
  password : option jsstring;
  confirmPassword : option jsstring
}.
End Errors.
Abbreviation FormErrors := Errors.FormErrors.

Definition no_errors : FormErrors :=
  {| Errors.name := None; Errors.email := None;
     Errors.password := None; Errors.confirmPassword := None |}.

Definition present {A} (o : option A) : nat :=
  match o with
  | Some _ => 1
  | None => 0
  end.

(** [Object.keys(errors).length] *)
Definition keys_length (e : FormErrors) : nat :=
  (present (Errors.name e) + present (Errors.email e)
   + present (Errors.password e) + present (Errors.confirmPassword e))%nat.

Record FormData : Type := {
  name : jsstring;
  email : jsstring;
  password : jsstring;
  confirmPassword : jsstring
}.

(** The [field] argument of [handleInputChange] and [validateField]: the
    four call sites in [renderInputField] pass these four literals. *)
Inductive Field : Type :=
| Field_name | Field_email | Field_password | Field_confirmPassword.

Record state : Type := {
  formData : FormData;
  showPassword : bool;
  showConfirmPassword : bool;
  agreeToTerms : bool;
  isLoading : bool;
  errors : FormErrors;
  focusedInput : option Field
}.

Definition initial : state :=
  {| formData := {| name := []; email := []; password := [];
                    confirmPassword := [] |};
     showPassword := false; showConfirmPassword := false;
     agreeToTerms := false; isLoading := false;
     errors := no_errors; focusedInput := None |}.

Definition setFormData (fd : FormData) (st : state) : state :=
  {| formData := fd; showPassword := showPassword st;
     showConfirmPassword := showConfirmPassword st;
     agreeToTerms := agreeToTerms st; isLoading := isLoading st;
     errors := errors st; focusedInput := focusedInput st |}.

Definition setAgreeToTerms (b : bool) (st : state) : state :=
  {| formData := formData st; showPassword := showPassword st;
     showConfirmPassword := showConfirmPassword st;
     agreeToTerms := b; isLoading := isLoading st;
     errors := errors st; focusedInput := focusedInput st |}.

Definition setIsLoading (b : bool) (st : state) : state :=
  {| formData := formData st; showPassword := showPassword st;
     showConfirmPassword := showConfirmPassword st;
     agreeToTerms := agreeToTerms st; isLoading := b;
     errors := errors st; focusedInput := focusedInput st |}.

Definition setErrors (e : FormErrors) (st : state) : state :=
  {| formData := formData st; showPassword := showPassword st;
     showConfirmPassword := showConfirmPassword st;
     agreeToTerms := agreeToTerms st; isLoading := isLoading st;
     errors := e; focusedInput := focusedInput st |}.

(** [{ ...prev, [field]: value }] *)
Definition with_field (f : Field) (value : jsstring) (fd : FormData) : FormData :=
  match f with
  | Field_name =>
      {| name := value; email := email fd; password := password fd;
         confirmPassword := confirmPassword fd |}
  | Field_email =>
      {| name := name fd; email := value; password := password fd;
         confirmPassword := confirmPassword fd |}
  | Field_password =>
      {| name := name fd; email := email fd; password := value;
         confirmPassword := confirmPassword fd |}
  | Field_confirmPassword =>
      {| name := name fd; email := email fd; password := password fd;
         confirmPassword := value |}
  end.

(** [validateField] computes the new [errors] from the [errors] and the
    [formData] of the current render. *)
Definition validateField (f : Field) (value : jsstring) (st : state) : state :=
  let e := errors st in
  let newErrors :=
    match f with
    | Field_name =>
        {| Errors.name :=
             if negb (validateName value)
             then Some (js "Name must be at least 2 characters and contain only letters")
             else None;
           Errors.email := Errors.email e;
           Errors.password := Errors.password e;
           Errors.confirmPassword := Errors.confirmPassword e |}
    | Field_email =>
        {| Errors.name := Errors.name e;
           Errors.email :=
             if negb (validateEmail value)
             then Some (js "Please enter a valid email address")
             else None;
           Errors.password := Errors.password e;
           Errors.confirmPassword := Errors.confirmPassword e |}
    | Field_password =>
        let passwordValidation := validatePassword value in
        {| Errors.name := Errors.name e;
           Errors.email := Errors.email e;
           Errors.password :=
             if negb (isValid passwordValidation)
             then message passwordValidation
             else None;
           Errors.confirmPassword := Errors.confirmPassword e |}
    | Field_confirmPassword =>
        {| Errors.name := Errors.name e;
           Errors.email := Errors.email e;
           Errors.password := Errors.password e;
           Errors.confirmPassword :=
             if negb (streq value (password (formData st)))
             then Some (js "Passwords do not match")
             else None |}
    end in
  setErrors newErrors st.

Definition handleInputChange (f : Field) (value : jsstring) (st : state) : state :=
  setFormData (with_field f value (formData st)) (validateField f value st).

(** The screen: the component, the log of its calls, and the number of
    [handleRegister] calls waiting at their [await]. *)
Record screen : Type := {
  ui : state;
  log : list effect;
  pending : nat
}.

Definition mounted : screen := {| ui := initial; log := []; pending := 0 |}.

Definition set_ui (f : state -> state) (sc : screen) : screen :=
  {| ui := f (ui sc); log := log sc; pending := pending sc |}.

Definition add_log (e : effect) (sc : screen) : screen :=
  {| ui := ui sc; log := log sc ++ [e]; pending := pending sc |}.

Definition await_timer (sc : screen) : screen :=
  {| ui := ui sc; log := log sc; pending := S (pending sc) |}.

(** [handleRegister], up to its [await]. *)
Definition handleRegister (sc : screen) : screen :=
  let fd := formData (ui sc) in
  if negb (truthy (name fd)) || negb (truthy (email fd))
     || negb (truthy (password fd)) || negb (truthy (confirmPassword fd))
  then add_log (Alert (js "Error") (js "Please fill in all fields")) sc
  else if negb (agreeToTerms (ui sc))
  then add_log (Alert (js "Error") (js "Please agree to the Terms & Conditions")) sc
  else if (0 <? keys_length (errors (ui sc)))%nat
  then add_log (Alert (js "Error")
                  (js "Please fix the validation errors before continuing")) sc
  else await_timer (set_ui (setIsLoading true) sc).

(** [handleRegister], from the moment the awaited promise has come to [r]:
    the rest of [try], or [catch], then [finally]. *)
Definition handleRegister_settled (r : outcome unit) (sc : screen) : screen :=
  let sc1 :=
    match r with
    | Returned _ =>
        add_log (Alert (js "Success") (js "Account created successfully!"))
          (add_log (ConsoleLog (js "Registration data:")) sc)
    | Thrown _ =>
        add_log (Alert (js "Error") (js "Registration failed. Please try again."))
          (add_log (ConsoleError (js "Registration error:")) sc)
    end in
  set_ui (setIsLoading false) sc1.

(** The 2000 ms delay of one waiting [handleRegister] elapses. *)
Definition timer_elapsed (sc : screen) : option screen :=
  match pending sc with
  | O => None
  | S n =>
      Some (handleRegister_settled (timer_promise 2000)
              {| ui := ui sc; log := log sc; pending := n |})
  end.

(** The [onPress] of the OK button of the success alert. *)
Definition successAlert_onPress (pr : props) (sc : screen) : screen :=
  if navigation pr then add_log (NavReplace (js "Home")) sc
  else if onRegisterSuccess pr then add_log CallOnRegisterSuccess sc
  else sc.

(** ** Vocabulary of the properties *)

(** The shape of the words of the email pattern. *)
Definition email_shape (s : jsstring) : Prop :=
  exists l d t,
    s = l ++ at_sign :: d ++ full_stop :: t /\
    l <> [] /\ d <> [] /\ t <> [] /\
    Forall (fun c => not_space_at c = true) (l ++ d ++ t).

(** The four rules of the registration password, each with its message,
    in the order in which they are checked. *)
Definition password_rules (p : jsstring) : list (bool * jsstring) :=
  [ ((8 <=? strlen p)%nat,
     js "Password must be at least 8 characters long");
    (existsb is_lower p,
     js "Password must contain at least one lowercase letter");
    (existsb is_upper p,
     js "Password must contain at least one uppercase letter");
    (existsb is_digit p,
     js "Password must contain at least one number") ].

(** The message of the first rule that fails, if one does. *)
Fixpoint first_failing (rules : list (bool * jsstring)) : option jsstring :=
  match rules with
  | [] => None
  | (ok, msg) :: rest => if ok then first_failing rest else Some msg
  end.

(** Some field of the form is the empty string. *)
Definition some_field_empty (fd : FormData) : Prop :=
  name fd = [] \/ email fd = [] \/ password fd = [] \/ confirmPassword fd = [].

(** [handleRegister] stopped with the alert [message] and changed nothing. *)
Definition aborts_with (message : jsstring) (sc sc' : screen) : Prop :=
  ui sc' = ui sc /\ pending sc' = pending sc /\
  log sc' = log sc ++ [Alert (js "Error") message].

End RegisterScreen.

(* ===================================================================== *)
(** * ForgotPasswordScreen (src/unnamed/part_001) *)
(* ===================================================================== *)

Module ForgotPasswordScreen.
Import JS Regex Platform.

(** [[^\s@]] *)
Definition not_space_at (c : N) : bool :=
  negb (is_space c) && negb (c =? at_sign).

(** [/^[^\s@]+@[^\s@]+\.[^\s@]+$/] *)
Definition EMAIL_REGEX : regex :=
  Seq (Plus (Class not_space_at))
    (Seq (Chr at_sign)
       (Seq (Plus (Class not_space_at))
          (Seq (Chr full_stop) (Plus (Class not_space_at))))).

Definition PASSWORD_MIN_LENGTH : nat := 6.

(** A number inside a template literal. *)
Definition number_to_string (n : nat) : jsstring :=
  js (NilZero.string_of_uint (Nat.to_uint n)).

(** ['email' | 'otp' | 'newPassword' | 'success'] *)
Inductive ForgotPasswordStep : Type :=
| Step_email | Step_otp | Step_newPassword | Step_success.

(** [ForgotPasswordScreenProps]: the prop is optional. *)
Record props : Type := { navigation : bool }.

Record state : Type := {
  currentStep : ForgotPasswordStep;
  email : jsstring;
  otp : jsstring;
  newPassword : jsstring;
  confirmPassword : jsstring;
  isLoading : bool;
  showNewPassword : bool;
  showConfirmPassword : bool;
  errors : gmap (list N) (list N);
  resendTimer : N
}.

Definition initial : state :=
  {| currentStep := Step_email; email := []; otp := []; newPassword := [];
     confirmPassword := []; isLoading := false; showNewPassword := false;
     showConfirmPassword := false; errors := ∅; resendTimer := 0 |}.

Definition setCurrentStep (v : ForgotPasswordStep) (st : state) : state :=
  {| currentStep := v;
     email := email st;
     otp := otp st;
     newPassword := newPassword st;
     confirmPassword := confirmPassword st;
     isLoading := isLoading st;
     showNewPassword := showNewPassword st;
     showConfirmPassword := showConfirmPassword st;
     errors := errors st;
     resendTimer := resendTimer st |}.

Definition setEmail (v : jsstring) (st : state) : state :=
  {| currentStep := currentStep st;
     email := v;
     otp := otp st;
     newPassword := newPassword st;
     confirmPassword := confirmPassword st;
     isLoading := isLoading st;
     showNewPassword := showNewPassword st;
     showConfirmPassword := showConfirmPassword st;
     errors := errors st;
     resendTimer := resendTimer st |}.

Definition setOtp (v : jsstring) (st : state) : state :=
  {| currentStep := currentStep st;
     email := email st;
     otp := v;
     newPassword := newPassword st;
     confirmPassword := confirmPassword st;
     isLoading := isLoading st;
     showNewPassword := showNewPassword st;
     showConfirmPassword := showConfirmPassword st;
     errors := errors st;
     resendTimer := resendTimer st |}.

Definition setNewPassword (v : jsstring) (st : state) : state :=
  {| currentStep := currentStep st;
     email := email st;
     otp := otp st;
     newPassword := v;
     confirmPassword := confirmPassword st;
     isLoading := isLoading st;
     showNewPassword := showNewPassword st;
     showConfirmPassword := showConfirmPassword st;
     errors := errors st;
     resendTimer := resendTimer st |}.

Definition setConfirmPassword (v : jsstring) (st : state) : state :=
  {| currentStep := currentStep st;
     email := email st;
     otp := otp st;
     newPassword := newPassword st;
     confirmPassword := v;
     isLoading := isLoading st;
     showNewPassword := showNewPassword st;
     showConfirmPassword := showConfirmPassword st;
     errors := errors st;
     resendTimer := resendTimer st |}.

Definition setIsLoading (v : bool) (st : state) : state :=
  {| currentStep := currentStep st;
     email := email st;
     otp := otp st;
     newPassword := newPassword st;
     confirmPassword := confirmPassword st;
     isLoading := v;
     showNewPassword := showNewPassword st;
     showConfirmPassword := showConfirmPassword st;
     errors := errors st;
     resendTimer := resendTimer st |}.

Definition setShowNewPassword (v : bool) (st : state) : state :=
  {| currentStep := currentStep st;
     email := email st;
     otp := otp st;
     newPassword := newPassword st;
     confirmPassword := confirmPassword st;
     isLoading := isLoading st;
     showNewPassword := v;
     showConfirmPassword := showConfirmPassword st;
     errors := errors st;
     resendTimer := resendTimer st |}.

Definition setShowConfirmPassword (v : bool) (st : state) : state :=
  {| currentStep := currentStep st;
     email := email st;
     otp := otp st;
     newPassword := newPassword st;
     confirmPassword := confirmPassword st;
     isLoading := isLoading st;
     showNewPassword := showNewPassword st;
     showConfirmPassword := v;
     errors := errors st;
     resendTimer := resendTimer st |}.

Definition setErrors (v : gmap (list N) (list N)) (st : state) : state :=
  {| currentStep := currentStep st;
     email := email st;
     otp := otp st;
     newPassword := newPassword st;
     confirmPassword := confirmPassword st;
     isLoading := isLoading st;
     showNewPassword := showNewPassword st;
     showConfirmPassword := showConfirmPassword st;
     errors := v;
     resendTimer := resendTimer st |}.

Definition setResendTimer (v : N) (st : state) : state :=
  {| currentStep := currentStep st;
     email := email st;
     otp := otp st;
     newPassword := newPassword st;
     confirmPassword := confirmPassword st;
     isLoading := isLoading st;
     showNewPassword := showNewPassword st;
     showConfirmPassword := showConfirmPassword st;
     errors := errors st;
     resendTimer := v |}.

Definition validateEmail (emailValue : jsstring) : jsstring :=
  if negb (truthy (trim emailValue)) then js "Email is required"
  else if negb (test_anchored EMAIL_REGEX emailValue)
  then js "Please enter a valid email address"
  else [].

Definition validateOTP (otpValue : jsstring) : jsstring :=
  if negb (truthy (trim otpValue)) then js "OTP is required"
  else if negb (strlen otpValue =? 6)%nat then js "OTP must be 6 digits"
  else if negb (test_anchored (Plus (Class is_digit)) otpValue)
  then js "OTP must contain only numbers"
  else [].

Definition validateNewPassword (passwordValue : jsstring) : jsstring :=
  if negb (truthy passwordValue) then js "Password is required"
  else if (strlen passwordValue <? PASSWORD_MIN_LENGTH)%nat
  then js "Password must be at least " ++ number_to_string PASSWORD_MIN_LENGTH
       ++ js " characters"
  else [].

(** [newPassword] is the state cell the closure reads. *)
Definition validateConfirmPassword (st : state) (confirmValue : jsstring) : jsstring :=
  if negb (truthy confirmValue) then js "Please confirm your password"
  else if negb (streq confirmValue (newPassword st)) then js "Passwords do not match"
  else [].

(** An [async] handler waiting at its [await] for a placeholder delay.
    [handleSendOTP] keeps the [email] of the render it was called in, for
    the text of its alert. *)
Inductive task : Type :=
| SendOTP_waiting (email : jsstring)
| VerifyOTP_waiting
| ResetPassword_waiting
| ResendOTP_waiting.

(** The screen: the component, the log of its calls, and the handlers that
    wait for their delay to elapse. *)
Record screen : Type := {
  ui : state;
  log : list effect;
  pending : list task
}.

Definition mounted : screen := {| ui := initial; log := []; pending := [] |}.

Definition set_ui (f : state -> state) (sc : screen) : screen :=
  {| ui := f (ui sc); log := log sc; pending := pending sc |}.

Definition add_log (e : effect) (sc : screen) : screen :=
  {| ui := ui sc; log := log sc ++ [e]; pending := pending sc |}.

Definition await (t : task) (sc : screen) : screen :=
  {| ui := ui sc; log := log sc; pending := pending sc ++ [t] |}.

Definition animateStepTransition (d : direction) (sc : screen) : screen :=
  add_log (Animate d) sc.

(** [if (errors[field]) setErrors(prev => ({ ...prev, [field]: '' }))] *)
Definition clearError (field : jsstring) (st : state) : state :=
  match errors st !! field with
  | Some m => if truthy m then setErrors (<[field := []]> (errors st)) st else st
  | None => st
  end.

(** [error instanceof Error ? error.message : fallback] *)
Definition message_or (err : option jsstring) (fallback : jsstring) : jsstring :=
  match err with
  | Some m => m
  | None => fallback
  end.

(** STEP 1, up to the [await]. *)
Definition handleSendOTP (sc : screen) : screen :=
  let emailError := validateEmail (email (ui sc)) in
  if truthy emailError
  then set_ui (setErrors {[ js "email" := emailError ]}) sc
  else await (SendOTP_waiting (email (ui sc))) (set_ui (setIsLoading true) sc).

(** STEP 1, once the awaited promise has come to [r]. *)
Definition handleSendOTP_settled (email0 : jsstring) (r : outcome unit)
    (sc : screen) : screen :=
  let sc1 :=
    match r with
    | Returned _ =>
        add_log
          (Alert (js "OTP Sent!")
             (js "We've sent a 6-digit verification code to " ++ email0
              ++ js ". Please check your email."))
          (set_ui (setResendTimer 60)
             (set_ui (setCurrentStep Step_otp)
                (animateStepTransition forward sc)))
    | Thrown err =>
        add_log
          (Alert (js "Error")
             (message_or err (js "Failed to send OTP. Please try again.")))
          (add_log (ConsoleError (js "Send OTP error:")) sc)
    end in
  set_ui (setIsLoading false) sc1.

(** STEP 2, up to the [await]. *)
Definition handleVerifyOTP (sc : screen) : screen :=
  let otpError := validateOTP (otp (ui sc)) in
  if truthy otpError
  then set_ui (setErrors {[ js "otp" := otpError ]}) sc
  else await VerifyOTP_waiting (set_ui (setIsLoading true) sc).

(** STEP 2, once the awaited promise has come to [r]. *)
Definition handleVerifyOTP_settled (r : outcome unit) (sc : screen) : screen :=
  let sc1 :=
    match r with
    | Returned _ =>
        set_ui (setCurrentStep Step_newPassword)
          (animateStepTransition forward sc)
    | Thrown _ =>
        set_ui (setErrors {[ js "otp" := js "Invalid or expired OTP" ]})
          (add_log
             (Alert (js "Invalid OTP")
                (js "The verification code you entered is invalid or has expired. Please try again."))
             (add_log (ConsoleError (js "Verify OTP error:")) sc))
    end in
  set_ui (setIsLoading false) sc1.

(** STEP 3, up to the [await]. *)
Definition handleResetPassword (sc : screen) : screen :=
  let passwordError := validateNewPassword (newPassword (ui sc)) in
  let confirmError := validateConfirmPassword (ui sc) (confirmPassword (ui sc)) in
  if truthy passwordError || truthy confirmError
  then set_ui (setErrors (<[ js "newPassword" := passwordError ]>
                            {[ js "confirmPassword" := confirmError ]})) sc
  else await ResetPassword_waiting (set_ui (setIsLoading true) sc).

(** STEP 3, once the awaited promise has come to [r]. *)
Definition handleResetPassword_settled (r : outcome unit) (sc : screen) : screen :=
  let sc1 :=
    match r with
    | Returned _ =>
        set_ui (setCurrentStep Step_success)
          (animateStepTransition forward sc)
    | Thrown err =>
        add_log
          (Alert (js "Reset Failed")
             (message_or err (js "Failed to reset password. Please try again.")))
          (add_log (ConsoleError (js "Reset password error:")) sc)
    end in
  set_ui (setIsLoading false) sc1.

(** [handleResendOTP], up to the [await]. *)
Definition handleResendOTP (sc : screen) : screen :=
  if 0 <? resendTimer (ui sc) then sc
  else await ResendOTP_waiting (set_ui (setResendTimer 60) sc).

(** [handleResendOTP], once the awaited promise has come to [r]. *)
Definition handleResendOTP_settled (r : outcome unit) (sc : screen) : screen :=
  match r with
  | Returned _ =>
      add_log
        (Alert (js "OTP Resent")
           (js "A new verification code has been sent to your email."))
        sc
  | Thrown _ =>
      set_ui (setResendTimer 0)
        (add_log
           (Alert (js "Error") (js "Failed to resend OTP. Please try again."))
           sc)
  end.

Definition handleBackToLogin (pr : props) (sc : screen) : screen :=
  if navigation pr then add_log (NavNavigate (js "Login")) sc else sc.

Definition handleBackStep (pr : props) (sc : screen) : screen :=
  let sc1 := animateStepTransition backward sc in
  match currentStep (ui sc) with
  | Step_otp => set_ui (setCurrentStep Step_email) sc1
  | Step_newPassword => set_ui (setCurrentStep Step_otp) sc1
  | Step_success => handleBackToLogin pr sc1
  | Step_email => if navigation pr then add_log NavGoBack sc1 else sc1
  end.

(** The rest of a waiting handler. Every awaited promise of this screen is a
    placeholder delay. *)
Definition settle (t : task) (sc : screen) : screen :=
  match t with
  | SendOTP_waiting email0 => handleSendOTP_settled email0 (timer_promise 2000) sc
  | VerifyOTP_waiting => handleVerifyOTP_settled (timer_promise 1500) sc
  | ResetPassword_waiting => handleResetPassword_settled (timer_promise 2000) sc
  | ResendOTP_waiting => handleResendOTP_settled (timer_promise 1000) sc
  end.

(** What can happen to the screen: the user acts on a control that is
    rendered and enabled, or a timer fires. [Submit*] is [onSubmitEditing]
    of the text input, [Press*] is [onPress] of a button. *)
Inductive event : Type :=
| ChangeEmail (value : jsstring)
| SubmitEmail
| PressSend
| ChangeOtp (value : jsstring)
| SubmitOtp
| PressVerify
| PressResend
| ChangeNewPassword (value : jsstring)
| ChangeConfirmPassword (value : jsstring)
| ToggleShowNewPassword
| ToggleShowConfirmPassword
| SubmitConfirmPassword
| PressReset
| PressBackToLogin
| PressBack
| TimerElapsed (i : nat)
| ResendTick.

Definition step_is (s : ForgotPasswordStep) (sc : screen) : bool :=
  match s, currentStep (ui sc) with
  | Step_email, Step_email | Step_otp, Step_otp
  | Step_newPassword, Step_newPassword | Step_success, Step_success => true
  | _, _ => false
  end.

Section Screen.

(** [String.prototype.toLowerCase], left abstract. *)
Variable toLowerCase : jsstring -> jsstring.
Variable pr : props.

(** One event. [None]: the control is not rendered in this step, or is
    disabled, or there is no such timer. Timers may fire in any order. *)
Definition step (sc : screen) (e : event) : option screen :=
  match e with
  | ChangeEmail value =>
      if step_is Step_email sc
      then Some (set_ui (fun st => clearError (js "email")
                                     (setEmail (trim (toLowerCase value)) st)) sc)
      else None
  | SubmitEmail =>
      if step_is Step_email sc then Some (handleSendOTP sc) else None
  | PressSend =>
      if step_is Step_email sc && negb (isLoading (ui sc))
      then Some (handleSendOTP sc) else None
  | ChangeOtp value =>
      if step_is Step_otp sc
      then Some (set_ui (fun st => clearError (js "otp")
                                     (setOtp (slice0 6 (remove_non_digits value)) st)) sc)
      else None
  | SubmitOtp =>
      if step_is Step_otp sc then Some (handleVerifyOTP sc) else None
  | PressVerify =>
      if step_is Step_otp sc && negb (isLoading (ui sc))
      then Some (handleVerifyOTP sc) else None
  | PressResend =>
      if step_is Step_otp sc && negb (0 <? resendTimer (ui sc))
      then Some (handleResendOTP sc) else None
  | ChangeNewPassword value =>
      if step_is Step_newPassword sc
      then Some (set_ui (fun st => clearError (js "newPassword")
                                     (setNewPassword value st)) sc)
      else None
  | ChangeConfirmPassword value =>
      if step_is Step_newPassword sc
      then Some (set_ui (fun st => clearError (js "confirmPassword")
                                     (setConfirmPassword value st)) sc)
      else None
  | ToggleShowNewPassword =>
      if step_is Step_newPassword sc
      then Some (set_ui (fun st => setShowNewPassword (negb (showNewPassword st)) st) sc)
      else None
  | ToggleShowConfirmPassword =>
      if step_is Step_newPassword sc
      then Some (set_ui (fun st => setShowConfirmPassword
                                     (negb (showConfirmPassword st)) st) sc)
      else None
  | SubmitConfirmPassword =>
      if step_is Step_newPassword sc then Some (handleResetPassword sc) else None
  | PressReset =>
      if step_is Step_newPassword sc && negb (isLoading (ui sc))
      then Some (handleResetPassword sc) else None
  | PressBackToLogin =>
      if step_is Step_success sc then Some (handleBackToLogin pr sc) else None
  | PressBack => Some (handleBackStep pr sc)
  | TimerElapsed i =>
      match pending sc !! i with
      | Some t =>
          Some (settle t {| ui := ui sc; log := log sc;
                            pending := delete i (pending sc) |})
      | None => None
      end
  | ResendTick =>
      if 0 <? resendTimer (ui sc)
      then Some (set_ui (fun st => setResendTimer (resendTimer st - 1) st) sc)
      else None
  end.

Fixpoint run (sc : screen) (es : list event) : option screen :=
  match es with
  | [] => Some sc
  | e :: es' =>
      match step sc e with
      | Some sc' => run sc' es'
      | None => None
      end
  end.

(** The screens that some sequence of events leads to, from the mount. *)
Definition reachable (sc : screen) : Prop :=
  exists es, run mounted es = Some sc.

End Screen.

(** ** Vocabulary of the properties *)

(** ASCII lower-casing, to run the screen on ASCII input. *)
Definition ascii_toLowerCase (s : jsstring) : jsstring :=
  map (fun c => if is_upper c then c + 32 else c) s.

(** The step after and the step before, in the order of the wizard. *)
Definition next_step (s : ForgotPasswordStep) : ForgotPasswordStep :=
  match s with
  | Step_email => Step_otp
  | Step_otp => Step_newPassword
  | Step_newPassword => Step_success
  | Step_success => Step_success
  end.

Definition previous_step (s : ForgotPasswordStep) : ForgotPasswordStep :=
  match s with
  | Step_email => Step_email
  | Step_otp => Step_email
  | Step_newPassword => Step_otp
  | Step_success => Step_success
  end.

(** The step that a waiting handler sets when its delay elapses. *)
Definition target (t : task) : option ForgotPasswordStep :=
  match t with
  | SendOTP_waiting _ => Some Step_otp
  | VerifyOTP_waiting => Some Step_newPassword
  | ResetPassword_waiting => Some Step_success
  | ResendOTP_waiting => None
  end.

(** The calls of the three forward handlers, and the handler that waits
    after an accepted call. *)
Definition submission (e : event) (st : state) : option task :=
  match e with
  | SubmitEmail | PressSend => Some (SendOTP_waiting (email st))
  | SubmitOtp | PressVerify => Some VerifyOTP_waiting
  | SubmitConfirmPassword | PressReset => Some ResetPassword_waiting
  | _ => None
  end.

(** The local validation that a submission has to pass. *)
Definition passes_validation (e : event) (st : state) : bool :=
  match e with
  | SubmitEmail | PressSend => negb (truthy (validateEmail (email st)))
  | SubmitOtp | PressVerify => negb (truthy (validateOTP (otp st)))
  | SubmitConfirmPassword | PressReset =>
      negb (truthy (validateNewPassword (newPassword st))
            || truthy (validateConfirmPassword st (confirmPassword st)))
  | _ => false
  end.

(** Not an alert of a [catch] block: the alerts of the [try] blocks are
    ['OTP Sent!'] and ['OTP Resent'], those of the [catch] blocks have the
    titles ['Error'], ['Invalid OTP'] and ['Reset Failed']. *)
Definition not_catch_alert (e : effect) : bool :=
  match e with
  | Alert title _ =>
      bool_decide (title = js "OTP Sent!") || bool_decide (title = js "OTP Resent")
  | _ => true
  end.

(** The OTP field holds at most six code units, all of them digits: it
    matches [/^[0-9]{0,6}$/]. *)
Definition otp_well_formed (s : jsstring) : Prop :=
  Forall (fun c => is_digit c = true) s /\ (strlen s <= 6)%nat.

(** [currentStep] after a sequence of events from the mount. *)
Definition step_after (toLowerCase : jsstring -> jsstring) (pr : props)
    (es : list event) : option ForgotPasswordStep :=
  option_map (fun sc => currentStep (ui sc)) (run toLowerCase pr mounted es).

End ForgotPasswordScreen.

(* ===================================================================== *)
(** * RegisterScreen: the controls of the screen *)
(* ===================================================================== *)

Module RegisterFlow.
Import JS Platform RegisterScreen.

Definition setShowPassword (b : bool) (st : state) : state :=
  {| formData := formData st; showPassword := b;
     showConfirmPassword := showConfirmPassword st;
     agreeToTerms := agreeToTerms st; isLoading := isLoading st;
     errors := errors st; focusedInput := focusedInput st |}.

Definition setShowConfirmPassword (b : bool) (st : state) : state :=
  {| formData := formData st; showPassword := showPassword st;
     showConfirmPassword := b;
     agreeToTerms := agreeToTerms st; isLoading := isLoading st;
     errors := errors st; focusedInput := focusedInput st |}.

Definition setFocusedInput (f : option Field) (st : state) : state :=
  {| formData := formData st; showPassword := showPassword st;
     showConfirmPassword := showConfirmPassword st;
     agreeToTerms := agreeToTerms st; isLoading := isLoading st;
     errors := errors st; focusedInput := f |}.

Definition togglePasswordVisibility (st : state) : state :=
  setShowPassword (negb (showPassword st)) st.

Definition toggleConfirmPasswordVisibility (st : state) : state :=
  setShowConfirmPassword (negb (showConfirmPassword st)) st.

Definition handleGoToLogin (pr : props) (sc : screen) : screen :=
  if navigation pr then add_log (NavNavigate (js "Login")) sc else sc.

Definition handleViewTerms (sc : screen) : screen :=
  add_log (ConsoleLog (js "View Terms & Conditions")) sc.

(** The controls of the screen and the timer of [handleRegister]. The
    register button is disabled while [isLoading]. *)
Inductive event : Type :=
| Change (f : Field) (value : jsstring)
| Focus (f : Field)
| Blur
| ToggleAgree
| TogglePassword
| ToggleConfirmPassword
| PressRegister
| PressViewTerms
| PressGoToLogin
| TimerElapsed.

Definition step (pr : props) (sc : screen) (e : event) : option screen :=
  match e with
  | Change f value => Some (set_ui (handleInputChange f value) sc)
  | Focus f => Some (set_ui (setFocusedInput (Some f)) sc)
  | Blur => Some (set_ui (setFocusedInput None) sc)
  | ToggleAgree =>
      Some (set_ui (fun st => setAgreeToTerms (negb (agreeToTerms st)) st) sc)
  | TogglePassword => Some (set_ui togglePasswordVisibility sc)
  | ToggleConfirmPassword => Some (set_ui toggleConfirmPasswordVisibility sc)
  | PressRegister =>
      if isLoading (ui sc) then None else Some (handleRegister sc)
  | PressViewTerms => Some (handleViewTerms sc)
  | PressGoToLogin => Some (handleGoToLogin pr sc)
  | TimerElapsed => timer_elapsed sc
  end.

Fixpoint run (pr : props) (sc : screen) (es : list event) : option screen :=
  match es with
  | [] => Some sc
  | e :: es' =>
      match step pr sc e with
      | Some sc' => run pr sc' es'
      | None => None
      end
  end.

Definition reachable (pr : props) (sc : screen) : Prop :=
  exists es, run pr mounted es = Some sc.

(** The value of a field of the form. *)
Definition field_value (f : Field) (fd : FormData) : jsstring :=
  match f with
  | Field_name => name fd
  | Field_email => email fd
  | Field_password => password fd
  | Field_confirmPassword => confirmPassword fd
  end.

(** The entry of a field in [errors]. *)
Definition field_error (f : Field) (e : FormErrors) : option jsstring :=
  match f with
  | Field_name => Errors.name e
  | Field_email => Errors.email e
  | Field_password => Errors.password e
  | Field_confirmPassword => Errors.confirmPassword e
  end.

(** The message that [validateField] stores for a field, if it stores
    one; [pw] is the password of the form at that time. *)
Definition field_check (f : Field) (value pw : jsstring) : option jsstring :=
  match f with
  | Field_name =>
      if validateName value then None
      else Some (js "Name must be at least 2 characters and contain only letters")
  | Field_email =>
      if validateEmail value then None
      else Some (js "Please enter a valid email address")
  | Field_password =>
      if isValid (validatePassword value) then None
      else message (validatePassword value)
  | Field_confirmPassword =>
      if streq value pw then None else Some (js "Passwords do not match")
  end.

(** An entry of [errors] for the name, the email or the password is the
    message for the value that the field holds; a field without an entry is
    empty or passes its check. *)
Definition errors_current (st : state) : Prop :=
  forall f, f <> Field_confirmPassword ->
    field_error f (errors st) = field_check f (field_value f (formData st)) [] \/
    (field_error f (errors st) = None /\ field_value f (formData st) = []).

(** [handleRegister] went on to its delay. *)
Definition proceeds (sc : screen) : Prop :=
  pending (handleRegister sc) = S (pending sc).

End RegisterFlow.

(* ===================================================================== *)
(** * ForgotPasswordScreen: progress of the wizard *)
(* ===================================================================== *)

Module WizardProgress.
Import JS Platform ForgotPasswordScreen.

(** The position of a step in the wizard. *)
Definition rank (s : ForgotPasswordStep) : nat :=
  match s with
  | Step_email => 0
  | Step_otp => 1
  | Step_newPassword => 2
  | Step_success => 3
  end.

(** The position that a waiting handler leads to. *)
Definition task_rank (t : task) : nat :=
  match target t with
  | Some s => rank s
  | None => 0
  end.

(** In the run [es] the handler that leads to step [s] was called, at some
    point, with input that passed its validation. *)
Definition submitted (toLowerCase : jsstring -> jsstring) (pr : props)
    (es : list event) (s : ForgotPasswordStep) : Prop :=
  exists es1 e es2 sc t,
    es = es1 ++ e :: es2 /\
    run toLowerCase pr mounted es1 = Some sc /\
    submission e (ui sc) = Some t /\
    target t = Some s /\
    passes_validation e (ui sc) = true.

(** Step [s] is not beyond the step shown nor beyond every step that a
    waiting handler leads to. *)
Definition covers (sc : screen) (s : ForgotPasswordStep) : Prop :=
  (rank s <= rank (currentStep (ui sc)))%nat \/
  exists t, t ∈ pending sc /\ (rank s <= task_rank t)%nat.

(** The key of [errors] that a change handler clears. *)
Definition changed_field (e : event) : option jsstring :=
  match e with
  | ChangeEmail _ => Some (js "email")
  | ChangeOtp _ => Some (js "otp")
  | ChangeNewPassword _ => Some (js "newPassword")
  | ChangeConfirmPassword _ => Some (js "confirmPassword")
  | _ => None
  end.

(** [errors[key]] is falsy: absent or the empty string. *)
Definition no_error_shown (errs : gmap (list N) (list N)) (key : jsstring) : Prop :=
  match errs !! key with
  | Some m => m = []
  | None => True
  end.

End WizardProgress.

(* ===================================================================== *)
(** * LoginScreen and App: the device between two launches *)
(* ===================================================================== *)

Module Launches.
Import JS Platform.

(** The next [n] promises of the native modules resolve. *)
Definition next_resolve (n : nat) (w : world) : bool :=
  forallb negb (take n (rejections w)).

(** The device at the next launch: what is stored stays, the fate of the
    promises of that launch is [r]. *)
Definition relaunch (r : list bool) (w : world) : world :=
  set_rejections r w.

End Launches.

(* ===================================================================== *)
(** * The matcher computes the language of the expression *)
(* ===================================================================== *)

Section RegexFacts.
Import JS Regex.

Lemma Lang_seq_inv r1 r2 s :
  Lang (Seq r1 r2) s <-> exists u v, s = u ++ v /\ Lang r1 u /\ Lang r2 v.
Proof.
  split.
  - inversion 1; subst; eauto.
  - intros (u & v & -> & Hu & Hv). by constructor.
Qed.

Lemma Lang_alt_inv r1 r2 s : Lang (Alt r1 r2) s <-> Lang r1 s \/ Lang r2 s.
Proof.
  split.
  - inversion 1; subst; auto.
  - intros [H | H]; [by apply L_alt_l | by apply L_alt_r].
Qed.

Lemma Lang_class_inv p s : Lang (Class p) s <-> exists c, s = [c] /\ p c = true.
Proof.
  split.
  - inversion 1; subst; eauto.
  - intros (c & -> & Hc). by constructor.
Qed.

Lemma Lang_nullable r : nullable r = true <-> Lang r [].
Proof.
  induction r as [| | p | r1 IH1 r2 IH2 | r1 IH1 r2 IH2 | r IH]; simpl.
  - split; [done | inversion 1].
  - split; [constructor | done].
  - split; [done | inversion 1].
  - rewrite andb_true_iff, IH1, IH2, Lang_seq_inv. split.
    + intros [H1 H2]. by exists [], [].
    + intros (u & v & Huv & Hu & Hv).
      symmetry in Huv. apply app_eq_nil in Huv as [-> ->]. done.
  - rewrite orb_true_iff, IH1, IH2, Lang_alt_inv. done.
  - split; [constructor | done].
Qed.

(** A non-empty word of [r*] starts with a non-empty word of [r]. *)
Lemma Lang_star_cons r c s :
  Lang (Star r) (c :: s) ->
  exists u v, s = u ++ v /\ Lang r (c :: u) /\ Lang (Star r) v.
Proof.
  intros H. remember (Star r) as r' eqn:Er. remember (c :: s) as w eqn:Ew.
  revert s Ew.
  induction H as [| | | | | r0 | r0 u v Hu _ Hv IHv]; intros s Ew; try discriminate.
  injection Er as ->. destruct u as [| c' u'].
  - simpl in Ew. by apply IHv.
  - simpl in Ew. injection Ew as -> <-. by exists u', v.
Qed.

Lemma Lang_deriv c r s : Lang (deriv c r) s <-> Lang r (c :: s).
Proof.
  revert s.
  induction r as [| | p | r1 IH1 r2 IH2 | r1 IH1 r2 IH2 | r IH]; intros s; simpl.
  - split; inversion 1.
  - split; inversion 1.
  - destruct (p c) eqn:Hp; split.
    + inversion 1; subst. by constructor.
    + inversion 1; subst. constructor.
    + inversion 1.
    + inversion 1; subst. congruence.
  - assert (Hseq : Lang (Seq (deriv c r1) r2) s <->
                   exists u v, s = u ++ v /\ Lang r1 (c :: u) /\ Lang r2 v).
    { rewrite Lang_seq_inv. by setoid_rewrite IH1. }
    rewrite (Lang_seq_inv r1 r2 (c :: s)).
    destruct (nullable r1) eqn:Hn.
    + rewrite Lang_alt_inv, Hseq, IH2. split.
      * intros [(u & v & -> & Hu & Hv) | H2].
        -- by exists (c :: u), v.
        -- apply Lang_nullable in Hn. by exists [], (c :: s).
      * intros (u & v & Huv & Hu & Hv). destruct u as [| c' u'].
        -- simpl in Huv. subst v. by right.
        -- simpl in Huv. injection Huv as <- ->. left. by exists u', v.
    + rewrite Hseq. split.
      * intros (u & v & -> & Hu & Hv). by exists (c :: u), v.
      * intros (u & v & Huv & Hu & Hv). destruct u as [| c' u'].
        -- apply Lang_nullable in Hu. congruence.
        -- simpl in Huv. injection Huv as <- ->. by exists u', v.
  - rewrite !Lang_alt_inv, IH1, IH2. done.
  - rewrite Lang_seq_inv. setoid_rewrite IH. split.
    + intros (u & v & -> & Hu & Hv).
      change (c :: u ++ v) with ((c :: u) ++ v). by constructor.
    + apply Lang_star_cons.
Qed.

(** [/^r$/.test(s)] holds exactly when [s] is a word of [r]. *)
Lemma test_anchored_Lang r s : test_anchored r s = true <-> Lang r s.
Proof.
  revert r. induction s as [| c s IH]; intros r; simpl.
  - apply Lang_nullable.
  - rewrite IH. apply Lang_deriv.
Qed.

Lemma lookahead_Lang r s :
  lookahead r s = true <-> exists u v, s = u ++ v /\ Lang r u.
Proof.
  revert r. induction s as [| c s IH]; intros r; simpl.
  - rewrite orb_false_r, Lang_nullable. split.
    + intros H. by exists [], [].
    + intros (u & v & Huv & Hu).
      symmetry in Huv. apply app_eq_nil in Huv as [-> ->]. done.
  - rewrite orb_true_iff, Lang_nullable, IH. split.
    + intros [H | (u & v & -> & Hu)].
      * by exists [], (c :: s).
      * apply Lang_deriv in Hu. by exists (c :: u), v.
    + intros (u & v & Huv & Hu). destruct u as [| c' u'].
      * by left.
      * simpl in Huv. injection Huv as <- ->. right.
        exists u', v. split; [done | by apply Lang_deriv].
Qed.

(** [/(?=r)/.test(s)] holds exactly when a word of [r] occurs in [s]. *)
Lemma test_lookahead_Lang r s :
  test_lookahead r s = true <-> exists a u v, s = a ++ u ++ v /\ Lang r u.
Proof.
  induction s as [| c s IH]; cbn [test_lookahead].
  - rewrite orb_false_r, lookahead_Lang. split.
    + intros (u & v & Huv & Hu). by exists [], u, v.
    + intros (a & u & v & Huv & Hu).
      symmetry in Huv. apply app_eq_nil in Huv as [-> Huv].
      apply app_eq_nil in Huv as [-> ->]. by exists [], [].
  - rewrite orb_true_iff, lookahead_Lang, IH. split.
    + intros [(u & v & Huv & Hu) | (a & u & v & -> & Hu)].
      * by exists [], u, v.
      * by exists (c :: a), u, v.
    + intros (a & u & v & Huv & Hu). destruct a as [| c' a'].
      * left. by exists u, v.
      * simpl in Huv. injection Huv as <- ->. right. by exists a', u, v.
Qed.

Lemma Lang_star_class p s :
  Lang (Star (Class p)) s <-> Forall (fun c => p c = true) s.
Proof.
  split.
  - intros H. remember (Star (Class p)) as r eqn:Er.
    induction H as [| | | | | r0 | r0 u v Hu _ Hv IHv]; try discriminate.
    + constructor.
    + injection Er as ->. apply Lang_class_inv in Hu as (c & -> & Hc).
      simpl. constructor; [done | by apply IHv].
  - induction 1 as [| c s Hc _ IH].
    + constructor.
    + change (c :: s) with ([c] ++ s). constructor; [by constructor | done].
Qed.

Lemma Lang_plus_class p s :
  Lang (Plus (Class p)) s <-> s <> [] /\ Forall (fun c => p c = true) s.
Proof.
  unfold Plus. rewrite Lang_seq_inv. split.
  - intros (u & v & -> & Hu & Hv).
    apply Lang_class_inv in Hu as (c & -> & Hc).
    apply Lang_star_class in Hv. split; [done | by constructor].
  - intros [Hne Hall]. destruct s as [| c s]; [done |].
    apply Forall_cons in Hall as [Hc Hs].
    exists [c], s. split; [done |].
    split; [by constructor | by apply Lang_star_class].
Qed.

(** [/(?=.*[class])/.test(s)]: some code unit of [s] is in the class. *)
Lemma test_lookahead_dotstar_class p s :
  test_lookahead (Seq (Star Dot) (Class p)) s = true <->
  Exists (fun c => p c = true) s.
Proof.
  rewrite test_lookahead_Lang, Exists_exists. split.
  - intros (a & u & v & -> & Hu).
    apply Lang_seq_inv in Hu as (u1 & u2 & -> & _ & Hc).
    apply Lang_class_inv in Hc as (c & -> & Hc).
    exists c. split; [| done].
    rewrite !elem_of_app. right. left. right. by left.
  - intros (c & Hin & Hc).
    apply list_elem_of_split in Hin as (a & v & ->).
    exists a, [c], v. split; [done |].
    change [c] with ([] ++ [c]). constructor; [constructor | by constructor].
Qed.

End RegexFacts.

(* ===================================================================== *)
(** * Email and password validation *)
(* ===================================================================== *)

Section Validation.
Import JS Regex.

Lemma Lang_chr c s : Lang (Chr c) s <-> s = [c].
Proof.
  unfold Chr. rewrite Lang_class_inv. split.
  - intros (c' & -> & Hc). apply N.eqb_eq in Hc. by subst.
  - intros ->. exists c. split; [done | apply N.eqb_refl].
Qed.

Lemma emailRegex_shape s :
  test_anchored RegisterScreen.emailRegex s = true <-> RegisterScreen.email_shape s.
Proof.
  rewrite test_anchored_Lang. unfold RegisterScreen.emailRegex, RegisterScreen.email_shape.
  split.
  - intros H.
    apply Lang_seq_inv in H as (l & s1 & -> & Hl & H).
    apply Lang_seq_inv in H as (a & s2 & -> & Ha & H).
    apply Lang_seq_inv in H as (d & s3 & -> & Hd & H).
    apply Lang_seq_inv in H as (b & t & -> & Hb & Ht).
    apply Lang_chr in Ha as ->. apply Lang_chr in Hb as ->.
    apply Lang_plus_class in Hl as [Hl1 Hl2].
    apply Lang_plus_class in Hd as [Hd1 Hd2].
    apply Lang_plus_class in Ht as [Ht1 Ht2].
    exists l, d, t. repeat split; try done.
    rewrite !Forall_app. done.
  - intros (l & d & t & -> & Hl & Hd & Ht & Hall).
    rewrite !Forall_app in Hall. destruct Hall as (Hl' & Hd' & Ht').
    apply L_seq; [by apply Lang_plus_class |].
    change (at_sign :: d ++ full_stop :: t)
      with ([at_sign] ++ d ++ [full_stop] ++ t).
    apply L_seq; [by apply Lang_chr |].
    apply L_seq; [by apply Lang_plus_class |].
    apply L_seq; [by apply Lang_chr | by apply Lang_plus_class].
Qed.

Lemma not_space_at_inv c :
  RegisterScreen.not_space_at c = true -> is_space c = false /\ c <> at_sign.
Proof.
  unfold RegisterScreen.not_space_at.
  rewrite andb_true_iff, !negb_true_iff, N.eqb_neq. done.
Qed.

Lemma at_sign_not_space : is_space at_sign = false.
Proof. reflexivity. Qed.

Lemma full_stop_not_space : is_space full_stop = false.
Proof. reflexivity. Qed.

Lemma email_shape_parts s :
  RegisterScreen.email_shape s ->
  exists local domain,
    s = local ++ [at_sign] ++ domain /\
    local <> [] /\ (at_sign ∉ local) /\
    Forall (fun c => is_space c = false) local /\
    full_stop ∈ domain /\ (at_sign ∉ domain) /\
    Forall (fun c => is_space c = false) s.
Proof.
  intros (l & d & t & -> & Hl & Hd & Ht & Hall).
  rewrite !Forall_app in Hall. destruct Hall as (Hl' & Hd' & Ht').
  assert (Hsp : forall u, Forall (fun c => RegisterScreen.not_space_at c = true) u ->
                          Forall (fun c => is_space c = false) u).
  { intros u Hu. eapply Forall_impl; [exact Hu |].
    intros c Hc. by apply not_space_at_inv in Hc as []. }
  assert (Hat : forall u, Forall (fun c => RegisterScreen.not_space_at c = true) u ->
                          at_sign ∉ u).
  { intros u Hu Hin. rewrite Forall_forall in Hu.
    apply Hu in Hin. by apply not_space_at_inv in Hin as []. }
  exists l, (d ++ full_stop :: t). repeat split.
  - done.
  - by apply Hat.
  - by apply Hsp.
  - rewrite elem_of_app. right. by left.
  - rewrite elem_of_app, elem_of_cons. intros [H | [H | H]].
    + by apply (Hat d).
    + done.
    + by apply (Hat t).
  - rewrite Forall_app, Forall_cons, Forall_app, Forall_cons.
    repeat split; auto using at_sign_not_space, full_stop_not_space.
Qed.

Lemma email_shape_has_at s : RegisterScreen.email_shape s -> at_sign ∈ s.
Proof.
  intros (l & d & t & -> & _). rewrite elem_of_app. right. by left.
Qed.

Lemma forgot_validateEmail_accepts s :
  ForgotPasswordScreen.validateEmail s = [] ->
  test_anchored ForgotPasswordScreen.EMAIL_REGEX s = true.
Proof.
  unfold ForgotPasswordScreen.validateEmail.
  destruct (truthy (trim s)); simpl; [| discriminate].
  destruct (test_anchored ForgotPasswordScreen.EMAIL_REGEX s); simpl;
    [done | discriminate].
Qed.

(** C7. Email validation (the pattern [/^[^\s@]+@[^\s@]+\.[^\s@]+$/], the
    same expression in the register and the forgot-password screen) rejects
    every string without an ['@']: [validateEmail] of the register screen
    returns [false] and [validateEmail] of the forgot-password screen
    returns a non-empty error message. A string is accepted by either only
    if it is [local ++ "@" ++ domain] with a non-empty local part free of
    ['@'] and of whitespace, a domain that contains a ['.'], and no
    whitespace anywhere. *)
Theorem email_validation_requires_at (s : jsstring) :
  RegisterScreen.emailRegex = ForgotPasswordScreen.EMAIL_REGEX /\
  (at_sign ∉ s ->
     RegisterScreen.validateEmail s = false /\
     test_anchored ForgotPasswordScreen.EMAIL_REGEX s = false /\
     truthy (ForgotPasswordScreen.validateEmail s) = true) /\
  (RegisterScreen.validateEmail s = true \/
   ForgotPasswordScreen.validateEmail s = [] ->
     exists local domain,
       s = local ++ [at_sign] ++ domain /\
       local <> [] /\ (at_sign ∉ local) /\
       Forall (fun c => is_space c = false) local /\
       full_stop ∈ domain /\
       Forall (fun c => is_space c = false) s).
Proof.
  split; [reflexivity |]. split.
  - intros Hno.
    assert (Hrej : test_anchored RegisterScreen.emailRegex s = false).
    { apply not_true_is_false. intros H. apply emailRegex_shape in H.
      by apply email_shape_has_at in H. }
    split; [exact Hrej |]. split; [exact Hrej |].
    unfold ForgotPasswordScreen.validateEmail.
    destruct (truthy (trim s)); simpl; [| reflexivity].
    change ForgotPasswordScreen.EMAIL_REGEX with RegisterScreen.emailRegex.
    rewrite Hrej. reflexivity.
  - intros H.
    assert (Hacc : test_anchored RegisterScreen.emailRegex s = true).
    { destruct H as [H | H]; [exact H | by apply forgot_validateEmail_accepts]. }
    apply emailRegex_shape, email_shape_parts in Hacc
      as (l & d & -> & ? & ? & ? & ? & ? & ?).
    by exists l, d.
Qed.

(** The theorem at ["user@example.com"] (accepted) and ["userexample.com"]
    (rejected). *)
Lemma email_validation_requires_at_witness :
  (RegisterScreen.validateEmail (js "userexample.com") = false /\
   truthy (ForgotPasswordScreen.validateEmail (js "userexample.com")) = true) /\
  (exists local domain,
     js "user@example.com" = local ++ [at_sign] ++ domain /\
     local <> [] /\ full_stop ∈ domain).
Proof.
  split.
  - destruct (email_validation_requires_at (js "userexample.com"))
      as (_ & Hrej & _).
    destruct Hrej as (H1 & _ & H3).
    + vm_compute. intros H. repeat (apply elem_of_cons in H as [H | H]; [discriminate |]).
      by apply elem_of_nil in H.
    + split; [exact H1 | exact H3].
  - destruct (email_validation_requires_at (js "user@example.com"))
      as (_ & _ & Hacc).
    destruct Hacc as (l & d & E & Hl & _ & _ & Hd & _).
    + left. vm_compute. reflexivity.
    + exists l, d. split; [exact E |]. split; [exact Hl | exact Hd].
Defined.

Lemma test_lookahead_existsb p s :
  test_lookahead (Seq (Star Dot) (Class p)) s = existsb p s.
Proof.
  apply eq_true_iff_eq.
  rewrite test_lookahead_dotstar_class, existsb_exists, Exists_exists.
  by setoid_rewrite list_elem_of_In.
Qed.

Lemma validatePassword_first_failing p :
  RegisterScreen.isValid (RegisterScreen.validatePassword p)
    = forallb fst (RegisterScreen.password_rules p) /\
  RegisterScreen.message (RegisterScreen.validatePassword p)
    = RegisterScreen.first_failing (RegisterScreen.password_rules p).
Proof.
  unfold RegisterScreen.validatePassword, RegisterScreen.password_rules.
  rewrite !test_lookahead_existsb. cbn [forallb RegisterScreen.first_failing fst].
  replace (strlen p <? 8)%nat with (negb (8 <=? strlen p)%nat)
    by (symmetry; apply Nat.ltb_antisym).
  destruct (8 <=? strlen p)%nat; cbn [negb andb]; [| done].
  destruct (existsb is_lower p); cbn [negb andb]; [| done].
  destruct (existsb is_upper p); cbn [negb andb]; [| done].
  destruct (existsb is_digit p); cbn [negb andb]; done.
Qed.

Lemma validateNewPassword_min_length p :
  ForgotPasswordScreen.validateNewPassword p = [] <-> (6 <= strlen p)%nat.
Proof.
  unfold ForgotPasswordScreen.validateNewPassword,
    ForgotPasswordScreen.PASSWORD_MIN_LENGTH.
  destruct p as [| c p]; simpl.
  - split; [discriminate | lia].
  - destruct (S (strlen p) <? 6)%nat eqn:E.
    + apply Nat.ltb_lt in E. split; [discriminate | unfold strlen in *; lia].
    + apply Nat.ltb_ge in E. split; [unfold strlen in *; lia | done].
Qed.

(** C6. [validatePassword(p).isValid] is true exactly when [p] has at least
    8 code units and contains a lowercase letter [[a-z]], an uppercase
    letter [[A-Z]] and a digit [[0-9]]; when it is false, the message is the
    one of the first rule that fails, in that order (and there is no message
    when it is true). [validateNewPassword] of the forgot-password screen
    accepts exactly the passwords of length at least
    [PASSWORD_MIN_LENGTH = 6]. *)
Theorem validatePassword_rules (p : jsstring) :
  (RegisterScreen.isValid (RegisterScreen.validatePassword p) = true <->
     (8 <= strlen p)%nat /\
     Exists (fun c => is_lower c = true) p /\
     Exists (fun c => is_upper c = true) p /\
     Exists (fun c => is_digit c = true) p) /\
  RegisterScreen.message (RegisterScreen.validatePassword p)
    = RegisterScreen.first_failing (RegisterScreen.password_rules p) /\
  (ForgotPasswordScreen.validateNewPassword p = [] <-> (6 <= strlen p)%nat) /\
  ForgotPasswordScreen.PASSWORD_MIN_LENGTH = 6%nat.
Proof.
  destruct (validatePassword_first_failing p) as [Hv Hm].
  split; [| split; [exact Hm | split; [apply validateNewPassword_min_length | done]]].
  rewrite Hv. unfold RegisterScreen.password_rules. cbn [forallb fst].
  rewrite andb_true_r, !andb_true_iff, Nat.leb_le, !existsb_exists, !Exists_exists.
  by setoid_rewrite list_elem_of_In.
Qed.

Example validatePassword_too_short :
  RegisterScreen.validatePassword (js "Ab1") =
  {| RegisterScreen.isValid := false;
     RegisterScreen.message :=
       Some (js "Password must be at least 8 characters long") |}.
Proof. reflexivity. Qed.

Example validatePassword_no_uppercase :
  RegisterScreen.validatePassword (js "abcdefg1") =
  {| RegisterScreen.isValid := false;
     RegisterScreen.message :=
       Some (js "Password must contain at least one uppercase letter") |}.
Proof. reflexivity. Qed.

Example validatePassword_accepts :
  RegisterScreen.validatePassword (js "Abcdefg1") =
  {| RegisterScreen.isValid := true; RegisterScreen.message := None |}.
Proof. reflexivity. Qed.

Example validateNewPassword_short_message :
  ForgotPasswordScreen.validateNewPassword (js "abc12") =
  js "Password must be at least 6 characters".
Proof. reflexivity. Qed.

End Validation.

(* ===================================================================== *)
(** * Login: persistence, pre-fill, empty fields *)
(* ===================================================================== *)

Section Login.
Import JS Platform LoginScreen.

Lemma truthy_true s : truthy s = true <-> s <> [].
Proof. destruct s; simpl; split; congruence. Qed.

Lemma truthy_false s : truthy s = false <-> s = [].
Proof. destruct s; simpl; split; congruence. Qed.

Lemma handleLogin_empty pr st w :
  username st = [] \/ password st = [] ->
  handleLogin pr st w =
  (Returned tt, add_log (Alert (js "Error") (js "Please fill in all fields")) w).
Proof.
  intros H. unfold handleLogin.
  assert (E : negb (truthy (username st)) || negb (truthy (password st)) = true).
  { destruct H as [-> | ->]; simpl; [done | by rewrite orb_true_r]. }
  by rewrite E.
Qed.

(** The run of [handleLogin] with both fields filled in. *)
Lemma handleLogin_filled pr st w :
  username st <> [] -> password st <> [] ->
  let w' := (handleLogin pr st w).2 in
  (handleLogin pr st w).1 = Returned tt /\
  log w' = log w ++ login_log pr st w /\
  (next_two_resolve w = true ->
     keychain w' = (if rememberMe st
                    then Some (username st, password st) else None) /\
     storage w' = <[js "rememberMe" :=
                      if rememberMe st then js "true" else js "false"]>
                    (storage w)) /\
  (forall k, k <> js "rememberMe" -> storage w' !! k = storage w !! k).
Proof.
  intros Hu Hp. apply truthy_true in Hu, Hp.
  unfold handleLogin, handleLogin_try, login_log, next_two_resolve,
    login_writes, login_navigation, login_failure.
  rewrite Hu, Hp. cbn [negb orb andb].
  destruct w as [kc sto rej lg].
  unfold try_catch, bind, emit, ret, Keychain_setGenericPassword,
    Keychain_resetGenericPassword, AsyncStorage_setItem, native.
  destruct (rememberMe st), (navigation pr), (onLoginSuccess pr);
    destruct rej as [| [] [| [] rej]]; cbn;
    rewrite <- ?app_assoc; cbn;
    (split; [reflexivity |]); (split; [by rewrite ?app_nil_r |]);
    (split; [try done |]);
    intros k Hk; by rewrite ?lookup_insert_ne.
Qed.

Lemma login_succeeds_resolve pr st w :
  login_succeeds pr st w -> next_two_resolve w = true.
Proof.
  intros (Hu & Hp & w' & Hrun). apply truthy_true in Hu, Hp.
  revert Hrun. unfold handleLogin_try, next_two_resolve.
  rewrite Hu, Hp. cbn [andb].
  destruct w as [kc sto rej lg].
  unfold bind, emit, ret, Keychain_setGenericPassword,
    Keychain_resetGenericPassword, AsyncStorage_setItem, native.
  by destruct (rememberMe st); destruct rej as [| [] [| [] rej]]; cbn.
Qed.

Lemma login_log_writes pr st w :
  filter is_write (login_log pr st w) `prefix_of` login_writes st /\
  (next_two_resolve w = true ->
   filter is_write (login_log pr st w) = login_writes st).
Proof.
  unfold login_log, next_two_resolve, login_writes, login_navigation,
    login_failure.
  destruct (rememberMe st), (navigation pr), (onLoginSuccess pr);
    destruct (rejections w) as [| [] [| [] rej]]; cbn;
    (split; [| done]);
    first [ by apply prefix_nil | by apply prefix_cons, prefix_nil | done ].
Qed.

(** C2. A successful login writes exactly two things: with [rememberMe],
    the pair (username, password) to the keychain and ['true'] under the
    AsyncStorage key ['rememberMe']; without it, the keychain entry is reset
    and ['rememberMe'] is set to ['false']. Whatever the run, [handleLogin]
    writes nothing else: its writes are a prefix of these two and every
    other AsyncStorage key keeps its value. *)
Theorem handleLogin_persistence (pr : props) (st : state) (w : world) :
  let w' := (handleLogin pr st w).2 in
  (login_succeeds pr st w ->
     (exists new, log w' = log w ++ new /\
                  filter is_write new = login_writes st) /\
     keychain w' = (if rememberMe st
                    then Some (username st, password st) else None) /\
     storage w' = <[js "rememberMe" :=
                      if rememberMe st then js "true" else js "false"]>
                    (storage w)) /\
  (exists new, log w' = log w ++ new /\
               filter is_write new `prefix_of` login_writes st) /\
  (forall k, k <> js "rememberMe" -> storage w' !! k = storage w !! k).
Proof.
  intros w'. subst w'. split; [| split].
  - intros Hs. pose proof (login_succeeds_resolve _ _ _ Hs) as Hres.
    destruct Hs as (Hu & Hp & _).
    destruct (handleLogin_filled pr st w Hu Hp) as (_ & Hlog & Hst & _).
    destruct (Hst Hres) as [Hk Hs]. split; [| done].
    exists (login_log pr st w). split; [done |].
    by apply login_log_writes.
  - destruct (username st) as [| c u] eqn:Eu.
    { rewrite handleLogin_empty by auto. eexists. split; [reflexivity |].
      apply prefix_nil. }
    destruct (password st) as [| d p] eqn:Ep.
    { rewrite handleLogin_empty by auto. eexists. split; [reflexivity |].
      apply prefix_nil. }
    destruct (handleLogin_filled pr st w) as (_ & Hlog & _);
      [by rewrite Eu | by rewrite Ep |].
    exists (login_log pr st w). split; [done | apply login_log_writes].
  - destruct (username st) as [| c u] eqn:Eu.
    { by rewrite handleLogin_empty by auto. }
    destruct (password st) as [| d p] eqn:Ep.
    { by rewrite handleLogin_empty by auto. }
    destruct (handleLogin_filled pr st w) as (_ & _ & _ & Hk);
      [by rewrite Eu | by rewrite Ep | done].
Qed.

(** The theorem at a login of [alice] with [rememberMe] on a fresh device. *)
Lemma handleLogin_persistence_witness :
  let pr := {| onLoginSuccess := false; navigation := true |} in
  let st := {| username := js "alice"; password := js "secret";
               rememberMe := true; showPassword := false |} in
  let w := {| keychain := None; storage := ∅; rejections := []; log := [] |} in
  keychain (handleLogin pr st w).2 = Some (js "alice", js "secret") /\
  storage (handleLogin pr st w).2 !! js "rememberMe" = Some (js "true").
Proof.
  intros pr st w.
  destruct (handleLogin_persistence pr st w) as (Hok & _ & _).
  destruct Hok as (_ & Hk & Hs).
  - split; [discriminate |]. split; [discriminate |].
    eexists. reflexivity.
  - split; [exact Hk |]. rewrite Hs. apply lookup_insert_eq.
Defined.

(** C4, as the code has it. [handleLogin] shows ['Please fill in all fields']
    and does nothing else exactly when [username] or [password] is empty.
    With both filled in, the placeholder check accepts them (neither that
    alert nor ['Invalid credentials'] is shown): if the two promises of the
    keychain and of AsyncStorage resolve, the login persists per
    [rememberMe] and then calls [navigation.replace('Home')] if there is a
    [navigation] prop, else [onLoginSuccess] if there is one, and shows no
    alert; if one of them rejects, ['Login failed. Please try again.'] is
    shown and nothing is navigated. *)
Theorem handleLogin_outcomes (pr : props) (st : state) (w : world) :
  let w' := (handleLogin pr st w).2 in
  (username st = [] \/ password st = [] ->
     w' = add_log (Alert (js "Error") (js "Please fill in all fields")) w) /\
  (username st <> [] /\ password st <> [] ->
     log w' = log w ++ login_log pr st w /\
     filter is_alert (login_log pr st w)
       = (if next_two_resolve w then []
          else [Alert (js "Error") (js "Login failed. Please try again.")]) /\
     (next_two_resolve w = true ->
        login_log pr st w = login_writes st ++ login_navigation pr /\
        keychain w' = (if rememberMe st
                       then Some (username st, password st) else None) /\
        storage w' = <[js "rememberMe" :=
                         if rememberMe st then js "true" else js "false"]>
                       (storage w)) /\
     (next_two_resolve w = false ->
        filter is_navigation (login_log pr st w) = [])).
Proof.
  intros w'. subst w'. split.
  - intros H. by rewrite handleLogin_empty.
  - intros [Hu Hp].
    destruct (handleLogin_filled pr st w Hu Hp) as (_ & Hlog & Hst & _).
    split; [done |]. split; [| split].
    + unfold login_log, next_two_resolve, login_writes, login_navigation,
        login_failure.
      by destruct (rememberMe st), (navigation pr), (onLoginSuccess pr);
        destruct (rejections w) as [| [] [| [] rej]].
    + intros Hres. split; [| by apply Hst].
      revert Hres. unfold login_log, next_two_resolve.
      by destruct (rejections w) as [| [] [| [] rej]].
    + unfold login_log, next_two_resolve, login_writes, login_failure.
      by destruct (rememberMe st);
        destruct (rejections w) as [| [] [| [] rej]].
Qed.

(** The theorem at an empty password, and at a filled-in form on a device
    whose promises resolve. *)
Lemma handleLogin_outcomes_witness :
  let pr := {| onLoginSuccess := false; navigation := true |} in
  let w := {| keychain := None; storage := ∅; rejections := []; log := [] |} in
  log (handleLogin pr {| username := js "alice"; password := [];
                         rememberMe := false; showPassword := false |} w).2
    = [Alert (js "Error") (js "Please fill in all fields")] /\
  log (handleLogin pr {| username := js "alice"; password := js "secret";
                         rememberMe := false; showPassword := false |} w).2
    = [KeychainReset; StorageSet (js "rememberMe") (js "false");
       NavReplace (js "Home")].
Proof.
  intros pr w. split.
  - destruct (handleLogin_outcomes pr
                {| username := js "alice"; password := [];
                   rememberMe := false; showPassword := false |} w)
      as [Hempty _].
    rewrite Hempty; [reflexivity | by right].
  - destruct (handleLogin_outcomes pr
                {| username := js "alice"; password := js "secret";
                   rememberMe := false; showPassword := false |} w)
      as [_ Hfilled].
    destruct Hfilled as (Hlog & _); [by split |].
    rewrite Hlog. reflexivity.
Defined.

(** C4 as stated fails: both fields are filled in, the promise of
    [Keychain.setGenericPassword] rejects, and the login does not succeed:
    the [catch] block shows its alert, nothing is persisted and nothing is
    navigated. *)
Lemma handleLogin_filled_in_but_rejected :
  let pr := {| onLoginSuccess := true; navigation := true |} in
  let st := {| username := js "alice"; password := js "secret";
               rememberMe := true; showPassword := false |} in
  let w := {| keychain := None; storage := ∅; rejections := [true];
              log := [] |} in
  username st <> [] /\ password st <> [] /\
  log (handleLogin pr st w).2
    = [Alert (js "Error") (js "Login failed. Please try again.");
       ConsoleError (js "Login error:")] /\
  filter is_navigation (log (handleLogin pr st w).2) = [] /\
  keychain (handleLogin pr st w).2 = None /\
  storage (handleLogin pr st w).2 !! js "rememberMe" = None.
Proof. by repeat split. Qed.

(** The same with resolving promises but neither prop: the login persists
    and then navigates nowhere. *)
Example handleLogin_without_props :
  let pr := {| onLoginSuccess := false; navigation := false |} in
  let st := {| username := js "alice"; password := js "secret";
               rememberMe := false; showPassword := false |} in
  let w := {| keychain := None; storage := ∅; rejections := []; log := [] |} in
  log (handleLogin pr st w).2
    = [KeychainReset; StorageSet (js "rememberMe") (js "false")].
Proof. reflexivity. Qed.

(** What a remembered login leaves on the device is what the next mount
    reads back. *)
Example login_then_mount :
  let pr := {| onLoginSuccess := false; navigation := true |} in
  let st := {| username := js "alice"; password := js "secret";
               rememberMe := true; showPassword := false |} in
  let w := {| keychain := None; storage := ∅; rejections := []; log := [] |} in
  (loadStoredCredentials initial (handleLogin pr st w).2).1 = Returned st.
Proof. reflexivity. Qed.

(** C3. [loadStoredCredentials]: if the read of ['rememberMe'] resolves to
    ['true'] and the read of the keychain resolves to stored credentials,
    the username, the password and the remember-me flag are set from them;
    if the stored flag is anything else, or the keychain holds nothing, the
    state of the component is left as it is, which on mount is empty, empty
    and false. *)
Theorem loadStoredCredentials_prefill (st : state) (w : world) :
  (forall u p w1 w2,
     AsyncStorage_getItem (js "rememberMe") w = (Returned (Some (js "true")), w1) ->
     Keychain_getGenericPassword w1 = (Returned (Some (u, p)), w2) ->
     exists st',
       loadStoredCredentials st w = (Returned st', w2) /\
       username st' = u /\ password st' = p /\ rememberMe st' = true /\
       showPassword st' = showPassword st) /\
  (storage w !! js "rememberMe" <> Some (js "true") \/ keychain w = None ->
     (loadStoredCredentials st w).1 = Returned st) /\
  (username initial = [] /\ password initial = [] /\
   rememberMe initial = false).
Proof.
  split; [| split; [| done]].
  - intros u p w1 w2 Hget Hkc.
    exists (setRememberMe true (setPassword p (setUsername u st))).
    split; [| done].
    unfold loadStoredCredentials, try_catch, bind.
    rewrite Hget. rewrite bool_decide_eq_true_2 by done.
    by rewrite Hkc.
  - intros H.
    unfold loadStoredCredentials, try_catch, bind, AsyncStorage_getItem,
      Keychain_getGenericPassword, native, emit, ret.
    destruct w as [kc sto rej lg]. cbn in H |- *.
    destruct rej as [| [] [| [] rej]]; cbn;
      try done;
      case_bool_decide; cbn; try done;
      destruct H as [H | ->]; try done;
      by destruct kc as [[] |].
Qed.

(** The theorem on mount, on the device that a remembered login of [alice]
    leaves behind, and on a fresh device. *)
Lemma loadStoredCredentials_prefill_witness :
  let remembered :=
    {| keychain := Some (js "alice", js "secret");
       storage := {[ js "rememberMe" := js "true" ]};
       rejections := []; log := [] |} in
  let fresh :=
    {| keychain := None; storage := ∅; rejections := []; log := [] |} in
  (exists st', (loadStoredCredentials initial remembered).1 = Returned st' /\
               username st' = js "alice" /\ password st' = js "secret" /\
               rememberMe st' = true) /\
  (loadStoredCredentials initial fresh).1 = Returned initial.
Proof.
  intros remembered fresh. split.
  - destruct (loadStoredCredentials_prefill initial remembered) as (Hyes & _).
    destruct (Hyes (js "alice") (js "secret") remembered remembered)
      as (st' & Hrun & Hu & Hp & Hr & _); [reflexivity | reflexivity |].
    exists st'. rewrite Hrun. by repeat split.
  - destruct (loadStoredCredentials_prefill initial fresh) as (_ & Hno & _).
    apply Hno. by right.
Defined.

End Login.

(* ===================================================================== *)
(** * Registration: the three checks of handleRegister *)
(* ===================================================================== *)

Section Register.
Import JS Platform RegisterScreen.

Lemma keys_length_zero (e : FormErrors) : keys_length e = 0%nat <-> e = no_errors.
Proof.
  destruct e as [[a |] [b |] [c |] [d |]]; unfold keys_length, no_errors; simpl;
    split; intros H; try discriminate; try reflexivity.
Qed.

Lemma some_field_empty_test fd :
  negb (truthy (name fd)) || negb (truthy (email fd))
  || negb (truthy (password fd)) || negb (truthy (confirmPassword fd)) = true
  <-> some_field_empty fd.
Proof.
  unfold some_field_empty.
  rewrite !orb_true_iff, !negb_true_iff, !truthy_false. tauto.
Qed.

(** C5. [handleRegister] stops with an alert, and leaves the state as it
    was, in three cases, checked in this order: a field of the form is
    empty; the terms are not agreed to; the [errors] record has a key. In
    every other case it sets [isLoading], waits for the delay, and then
    shows the success alert and clears [isLoading]. *)
Theorem handleRegister_checks (sc : screen) :
  let fd := formData (ui sc) in
  (some_field_empty fd ->
     aborts_with (js "Please fill in all fields") sc (handleRegister sc)) /\
  (~ some_field_empty fd -> agreeToTerms (ui sc) = false ->
     aborts_with (js "Please agree to the Terms & Conditions") sc
       (handleRegister sc)) /\
  (~ some_field_empty fd -> agreeToTerms (ui sc) = true ->
   errors (ui sc) <> no_errors ->
     aborts_with (js "Please fix the validation errors before continuing") sc
       (handleRegister sc)) /\
  (~ some_field_empty fd -> agreeToTerms (ui sc) = true ->
   errors (ui sc) = no_errors ->
     ui (handleRegister sc) = setIsLoading true (ui sc) /\
     log (handleRegister sc) = log sc /\
     pending (handleRegister sc) = S (pending sc) /\
     exists sc',
       timer_elapsed (handleRegister sc) = Some sc' /\
       ui sc' = setIsLoading false (setIsLoading true (ui sc)) /\
       pending sc' = pending sc /\
       log sc' = log sc ++ [ConsoleLog (js "Registration data:");
                            Alert (js "Success")
                              (js "Account created successfully!")]).
Proof.
  intros fd. subst fd. unfold handleRegister.
  destruct (negb (truthy (name (formData (ui sc))))
            || negb (truthy (email (formData (ui sc))))
            || negb (truthy (password (formData (ui sc))))
            || negb (truthy (confirmPassword (formData (ui sc))))) eqn:Hempty.
  - apply some_field_empty_test in Hempty.
    split; [intros _; by repeat split |].
    repeat split; intros; contradiction.
  - assert (Hfull : ~ some_field_empty (formData (ui sc))).
    { rewrite <- some_field_empty_test. congruence. }
    split; [intros H; contradiction |].
    destruct (agreeToTerms (ui sc)); cbn [negb].
    + split; [intros; discriminate |].
      destruct (0 <? keys_length (errors (ui sc)))%nat eqn:Hkeys.
      * apply Nat.ltb_lt in Hkeys. split; [intros; by repeat split |].
        intros _ _ Hnone. apply keys_length_zero in Hnone. lia.
      * apply Nat.ltb_ge in Hkeys. split.
        { intros _ _ Hsome. exfalso. apply Hsome, keys_length_zero. lia. }
        intros _ _ _. repeat split.
        eexists. split; [reflexivity |].
        cbn. by rewrite <- app_assoc.
    + split; [intros; by repeat split |].
      split; intros; discriminate.
Qed.

(** The theorem on the form as mounted (everything empty), and on a form
    that is filled in, agreed to and free of errors. *)
Lemma handleRegister_checks_witness :
  let filled :=
    {| ui := setAgreeToTerms true
               (handleInputChange Field_confirmPassword (js "Abcdefg1")
                  (handleInputChange Field_password (js "Abcdefg1")
                     (handleInputChange Field_email (js "ann@example.com")
                        (handleInputChange Field_name (js "Ann Lee") initial))));
       log := []; pending := 0 |} in
  log (handleRegister mounted)
    = [Alert (js "Error") (js "Please fill in all fields")] /\
  isLoading (ui (handleRegister filled)) = true /\
  log (handleRegister filled) = [].
Proof.
  intros filled. split.
  - destruct (handleRegister_checks mounted) as (Hempty & _).
    destruct Hempty as (_ & _ & Hlog); [by left | exact Hlog].
  - destruct (handleRegister_checks filled) as (_ & _ & _ & Hgo).
    destruct Hgo as (Hui & Hlog & _).
    + vm_compute. intros [H | [H | [H | H]]]; discriminate.
    + reflexivity.
    + reflexivity.
    + rewrite Hui, Hlog. by split.
Defined.

Example handleRegister_terms_not_agreed :
  log (handleRegister
         {| ui := handleInputChange Field_confirmPassword (js "Abcdefg1")
                    (handleInputChange Field_password (js "Abcdefg1")
                       (handleInputChange Field_email (js "ann@example.com")
                          (handleInputChange Field_name (js "Ann Lee") initial)));
            log := []; pending := 0 |})
  = [Alert (js "Error") (js "Please agree to the Terms & Conditions")].
Proof. reflexivity. Qed.

Example handleRegister_validation_errors :
  log (handleRegister
         {| ui := setAgreeToTerms true
                    (handleInputChange Field_confirmPassword (js "Abcdefg1")
                       (handleInputChange Field_password (js "Abcdefg1")
                          (handleInputChange Field_email (js "ann.example.com")
                             (handleInputChange Field_name (js "Ann Lee") initial))));
            log := []; pending := 0 |})
  = [Alert (js "Error") (js "Please fix the validation errors before continuing")].
Proof. reflexivity. Qed.

End Register.

(* ===================================================================== *)
(** * Password recovery: the wizard, its delays, the OTP field *)
(* ===================================================================== *)

Section ForgotPassword.
Import JS Regex Platform ForgotPasswordScreen.

Ltac unfold_screen :=
  unfold settle, handleSendOTP, handleSendOTP_settled, handleVerifyOTP,
    handleVerifyOTP_settled, handleResetPassword, handleResetPassword_settled,
    handleResendOTP, handleResendOTP_settled, handleBackStep,
    handleBackToLogin, animateStepTransition, set_ui, add_log, await,
    clearError, timer_promise in *.

Section Run.
Variable toLowerCase : jsstring -> jsstring.
Variable pr : props.

Lemma run_app sc es1 es2 :
  run toLowerCase pr sc (es1 ++ es2) =
  match run toLowerCase pr sc es1 with
  | Some sc' => run toLowerCase pr sc' es2
  | None => None
  end.
Proof.
  revert sc. induction es1 as [| e es1 IH]; intros sc; simpl; [done |].
  destruct (step toLowerCase pr sc e); [apply IH | done].
Qed.

(** Induction on the events that lead to a screen. *)
Lemma reachable_ind' (P : screen -> Prop) :
  P mounted ->
  (forall sc e sc', reachable toLowerCase pr sc -> P sc ->
                    step toLowerCase pr sc e = Some sc' -> P sc') ->
  forall sc, reachable toLowerCase pr sc -> P sc.
Proof.
  intros H0 Hstep sc [es Hrun]. revert sc Hrun.
  induction es as [| e es IH] using rev_ind; intros sc Hrun.
  - simpl in Hrun. by injection Hrun as <-.
  - rewrite run_app in Hrun.
    destruct (run toLowerCase pr mounted es) as [sc0 |] eqn:E; [| done].
    simpl in Hrun.
    destruct (step toLowerCase pr sc0 e) as [sc1 |] eqn:Es; [| done].
    injection Hrun as <-.
    apply (Hstep sc0 e); [by exists es | by apply IH | done].
Qed.

Lemma reachable_step sc e sc' :
  reachable toLowerCase pr sc -> step toLowerCase pr sc e = Some sc' ->
  reachable toLowerCase pr sc'.
Proof.
  intros [es Hrun] Hs. exists (es ++ [e]).
  rewrite run_app, Hrun. simpl. by rewrite Hs.
Qed.

(** What an event does to the OTP field. *)
Lemma step_otp sc e sc' :
  step toLowerCase pr sc e = Some sc' ->
  otp (ui sc') = otp (ui sc) \/
  exists value, otp (ui sc') = slice0 6 (remove_non_digits value).
Proof.
  destruct e; cbn [step]; intros H; repeat case_match; simplify_eq;
    unfold_screen; cbn; repeat case_match; cbn; eauto.
Qed.

(** What an event does to [currentStep]. *)
Lemma step_currentStep sc e sc' :
  step toLowerCase pr sc e = Some sc' ->
  currentStep (ui sc') = currentStep (ui sc) \/
  (e = PressBack /\ currentStep (ui sc') = previous_step (currentStep (ui sc))) \/
  (exists i t, e = TimerElapsed i /\ pending sc !! i = Some t /\
               target t = Some (currentStep (ui sc'))).
Proof.
  destruct e; cbn [step]; intros H; repeat case_match; simplify_eq;
    unfold_screen; cbn; repeat case_match; cbn; eauto 10.
Qed.

Lemma settle_currentStep t sc :
  currentStep (ui (settle t sc)) = default (currentStep (ui sc)) (target t).
Proof. by destruct t. Qed.

(** A placeholder delay never runs a [catch] block: what the rest of a
    handler logs holds no alert of a [catch]. *)
Lemma settle_log t sc :
  exists new, log (settle t sc) = log sc ++ new /\
              forallb not_catch_alert new = true.
Proof.
  destruct t; unfold_screen; cbn; rewrite <- ?app_assoc;
    eexists; (split; [reflexivity | reflexivity]).
Qed.




Lemma step_is_true s sc : step_is s sc = true -> currentStep (ui sc) = s.
Proof. unfold step_is. by destruct s, (currentStep (ui sc)). Qed.

(** A forward handler is called in its own step only. It leaves
    [currentStep] as it is; it waits for its delay exactly when the local
    validation passes. *)
Lemma step_submission sc e sc' t :
  step toLowerCase pr sc e = Some sc' ->
  submission e (ui sc) = Some t ->
  currentStep (ui sc') = currentStep (ui sc) /\
  target t = Some (next_step (currentStep (ui sc))) /\
  (passes_validation e (ui sc) = true ->
     pending sc' = pending sc ++ [t] /\ log sc' = log sc /\
     ui sc' = setIsLoading true (ui sc)) /\
  (passes_validation e (ui sc) = false ->
     pending sc' = pending sc /\ log sc' = log sc).
Proof.
  destruct e; cbn [step submission passes_validation]; intros H Ht;
    try discriminate; repeat case_match; simplify_eq;
    repeat match goal with
           | H : _ && _ = true |- _ => apply andb_true_iff in H as [? ?]
           end;
    match goal with
    | H : step_is _ _ = true |- _ => apply step_is_true in H; rewrite H
    end;
    unfold_screen; cbn;
    repeat match goal with
           | |- context [truthy ?x] => destruct (truthy x); cbn
           end;
    repeat split; intros; try discriminate; try done.
Qed.


Lemma timer_fires sc i t :
  pending sc !! i = Some t ->
  exists sc', step toLowerCase pr sc (TimerElapsed i) = Some sc' /\
              currentStep (ui sc') = default (currentStep (ui sc)) (target t) /\
              (is_Some (target t) -> isLoading (ui sc') = false) /\
              exists new, log sc' = log sc ++ new /\
                          forallb not_catch_alert new = true.
Proof.
  intros Hi. cbn [step]. rewrite Hi. eexists. split; [reflexivity |].
  split; [by rewrite settle_currentStep |].
  split; [by destruct t; [..| intros [? [=]]] |].
  apply (settle_log _ {| ui := _; log := _; pending := _ |}).
Qed.

End Run.

(** ** The OTP field *)

Lemma digit_not_space c : is_digit c = true -> is_space c = false.
Proof.
  unfold is_digit, is_space. rewrite andb_true_iff, !N.leb_le. intros [H1 H2].
  repeat match goal with
         | |- context [?a =? ?b] => destruct (N.eqb_spec a b); [lia |]
         | |- context [?a <=? ?b] => destruct (N.leb_spec a b); try lia
         end; reflexivity.
Qed.

Lemma trimStart_no_space c s : is_space c = false -> trimStart (c :: s) = c :: s.
Proof. intros H. simpl. by rewrite H. Qed.

Lemma trim_digits s : Forall (fun c => is_digit c = true) s -> trim s = s.
Proof.
  intros Hs. unfold trim, trimEnd.
  assert (Hstart : forall u, Forall (fun c => is_digit c = true) u -> trimStart u = u).
  { intros [| c u] Hu; [done |]. apply Forall_cons in Hu as [Hc _].
    by apply trimStart_no_space, digit_not_space. }
  rewrite (Hstart s Hs).
  assert (Hrev : Forall (fun c => is_digit c = true) (rev s)).
  { rewrite Forall_forall in *. intros x Hx. apply Hs.
    by apply list_elem_of_In, in_rev, list_elem_of_In. }
  rewrite (Hstart _ Hrev). apply rev_involutive.
Qed.

Lemma validateOTP_well_formed s :
  otp_well_formed s ->
  validateOTP s =
    match s with
    | [] => js "OTP is required"
    | _ :: _ => if (strlen s =? 6)%nat then [] else js "OTP must be 6 digits"
    end.
Proof.
  intros [Hd _]. unfold validateOTP. rewrite (trim_digits s Hd).
  destruct s as [| c s]; [done |]. cbn [truthy negb].
  destruct (strlen (c :: s) =? 6)%nat; cbn [negb]; [| done].
  assert (Hm : test_anchored (Plus (Class is_digit)) (c :: s) = true).
  { apply test_anchored_Lang, Lang_plus_class. by split. }
  by rewrite Hm.
Qed.

Lemma slice_digits_well_formed value :
  otp_well_formed (slice0 6 (remove_non_digits value)).
Proof.
  unfold otp_well_formed, slice0, remove_non_digits, strlen. split.
  - apply Forall_take, Forall_forall. intros c Hc.
    apply list_elem_of_In, filter_In in Hc. by destruct Hc.
  - apply firstn_le_length.
Qed.

(** C9, as the code has it. The value of the OTP field always matches
    [/^[0-9]{0,6}$/]: the change handler keeps the digits of the input and
    of these the first six. On such a value [validateOTP] fails only with
    ['OTP is required'] (the empty field) or with ['OTP must be 6 digits'],
    never with ['OTP must contain only numbers']. *)
Theorem otp_field_invariant (toLowerCase : jsstring -> jsstring) (pr : props)
    (sc : screen) :
  reachable toLowerCase pr sc ->
  otp_well_formed (otp (ui sc)) /\
  validateOTP (otp (ui sc)) =
    match otp (ui sc) with
    | [] => js "OTP is required"
    | _ :: _ => if (strlen (otp (ui sc)) =? 6)%nat then []
                else js "OTP must be 6 digits"
    end /\
  validateOTP (otp (ui sc)) <> js "OTP must contain only numbers".
Proof.
  intros Hr.
  assert (Hwf : otp_well_formed (otp (ui sc))).
  { induction Hr as [| sc0 e sc1 _ IH Hs] using reachable_ind'.
    - split; [constructor | simpl; lia].
    - apply step_otp in Hs as [-> | [value ->]]; [done |].
      apply slice_digits_well_formed. }
  split; [done |]. rewrite (validateOTP_well_formed _ Hwf).
  split; [done |].
  destruct (otp (ui sc)); [| destruct (strlen _ =? 6)%nat];
    intros Heq; vm_compute in Heq; discriminate.
Qed.

(** The theorem on the screen after an email was sent and ["12ab34"] was
    typed into the OTP field. *)
Lemma otp_field_invariant_witness :
  exists sc,
    run ascii_toLowerCase {| navigation := true |} mounted
      [ChangeEmail (js "ann@example.com"); PressSend; TimerElapsed 0;
       ChangeOtp (js "12ab34")] = Some sc /\
    otp (ui sc) = js "1234" /\
    validateOTP (otp (ui sc)) = js "OTP must be 6 digits".
Proof.
  eexists. split; [vm_compute; reflexivity |]. split; [reflexivity |].
  match goal with
  | |- validateOTP (otp (ui ?sc)) = _ =>
      destruct (otp_field_invariant ascii_toLowerCase {| navigation := true |} sc)
        as (_ & Hv & _)
  end.
  - exists [ChangeEmail (js "ann@example.com"); PressSend; TimerElapsed 0;
            ChangeOtp (js "12ab34")].
    vm_compute. reflexivity.
  - rewrite Hv. reflexivity.
Defined.

(** C9 as stated fails on the empty field: the screen as mounted, and the
    screen that shows the OTP step before anything is typed, hold the empty
    OTP, on which [validateOTP] fails with ['OTP is required'] and not with
    ['OTP must be 6 digits']; pressing the verify button there puts that
    message into [errors]. *)
Lemma otp_empty_is_required_not_length :
  reachable ascii_toLowerCase {| navigation := true |} mounted /\
  otp (ui mounted) = [] /\
  truthy (validateOTP (otp (ui mounted))) = true /\
  validateOTP (otp (ui mounted)) = js "OTP is required" /\
  validateOTP (otp (ui mounted)) <> js "OTP must be 6 digits" /\
  option_map (fun sc => (currentStep (ui sc), errors (ui sc) !! js "otp"))
    (run ascii_toLowerCase {| navigation := true |} mounted
       [ChangeEmail (js "ann@example.com"); PressSend; TimerElapsed 0;
        PressVerify])
  = Some (Step_otp, Some (js "OTP is required")).
Proof.
  split; [by exists [] |]. repeat split; try reflexivity.
  intros H. vm_compute in H. discriminate.
Qed.

(** ** The wizard *)




(** The whole wizard, from the email to the success step. *)
Example wizard_happy_path :
  step_after ascii_toLowerCase {| navigation := true |}
    [ChangeEmail (js "ann@example.com"); PressSend; TimerElapsed 0;
     ChangeOtp (js "123456"); PressVerify; TimerElapsed 0;
     ChangeNewPassword (js "secret1"); ChangeConfirmPassword (js "secret1");
     PressReset; TimerElapsed 0]
  = Some Step_success.
Proof. reflexivity. Qed.

(** ** The placeholder delays *)





End ForgotPassword.

(* ===================================================================== *)
(** * Start-up: the initial route *)
(* ===================================================================== *)

Section AppStart.
Import JS Platform App.

Lemma truthy_token_true o :
  truthy_token o = true <-> exists t, o = Some t /\ t <> [].
Proof.
  destruct o as [t |]; simpl.
  - rewrite truthy_true. split; [by exists t | by intros (? & [= <-] & ?)].
  - split; [done | by intros (? & ? & ?)].
Qed.

(** The component when [checkLoginStatus] is done. *)
Lemma checkLoginStatus_comp w :
  (checkLoginStatus w).1 =
  {| comp := {| isLoading := false;
                isLoggedIn := if read_rejects w then false
                              else truthy_token (storage w !! js "userToken") |};
     at_ := Finished |}.
Proof.
  unfold checkLoginStatus, read_rejects. cbn.
  unfold AsyncStorage_getItem, native.
  by destruct (rejections w) as [| [] r].
Qed.

(** C10. While [checkLoginStatus] is in flight (before the delay has
    elapsed, and before the read of AsyncStorage has settled) the Loading
    screen is rendered. When it is done the navigator is rendered, with
    initial route ['Home'] exactly when the read resolves and AsyncStorage
    holds a non-empty string under ['userToken'], and ['Login'] in every
    other case, in particular when the read throws. *)
Theorem initial_route (w : world) :
  (render (comp mounted) = LoadingNavigator /\ at_ mounted <> Finished) /\
  (render (comp (advance mounted w).1) = LoadingNavigator /\
   at_ (advance mounted w).1 <> Finished) /\
  at_ (checkLoginStatus w).1 = Finished /\
  (render (comp (checkLoginStatus w).1) = MainNavigator (js "Home") <->
     read_rejects w = false /\ holds_token w) /\
  (~ (read_rejects w = false /\ holds_token w) ->
     render (comp (checkLoginStatus w).1) = MainNavigator (js "Login")) /\
  (read_rejects w = true ->
     render (comp (checkLoginStatus w).1) = MainNavigator (js "Login")).
Proof.
  split; [by split |]. split; [by split |].
  rewrite checkLoginStatus_comp. cbn [comp at_ render isLoading isLoggedIn].
  split; [done |].
  unfold holds_token. rewrite <- truthy_token_true.
  destruct (read_rejects w); cbn [negb].
  - split; [split; [intros [=] | intros [[=] _]] |]. by split.
  - destruct (truthy_token (storage w !! js "userToken")).
    + split; [by split |]. split; [| done].
      intros Hn. exfalso. by apply Hn.
    + split; [split; [intros [=] | intros [_ [=]]] |]. by split.
Qed.

(** The theorem on a device without a token, on one whose read throws, and
    on one that holds a token. *)
Lemma initial_route_witness :
  let device := fun m r =>
    {| keychain := None; storage := m; rejections := r; log := [] |} in
  render (comp (checkLoginStatus (device ∅ [])).1) = MainNavigator (js "Login") /\
  render (comp (checkLoginStatus
                  (device {[ js "userToken" := js "abc" ]} [true])).1)
    = MainNavigator (js "Login") /\
  render (comp (checkLoginStatus
                  (device {[ js "userToken" := js "abc" ]} [])).1)
    = MainNavigator (js "Home").
Proof.
  intros device. split; [| split].
  - destruct (initial_route (device ∅ [])) as (_ & _ & _ & _ & Hlogin & _).
    apply Hlogin. intros [_ (t & Ht & _)]. vm_compute in Ht. discriminate.
  - destruct (initial_route (device {[ js "userToken" := js "abc" ]} [true]))
      as (_ & _ & _ & _ & _ & Hthrow).
    apply Hthrow. reflexivity.
  - destruct (initial_route (device {[ js "userToken" := js "abc" ]} []))
      as (_ & _ & _ & Hhome & _).
    apply Hhome. split; [reflexivity |].
    exists (js "abc"). split; [reflexivity | discriminate].
Defined.

End AppStart.

(* ===================================================================== *)
(** * Further properties: the validators *)
(* ===================================================================== *)

Section MoreValidation.
Import JS Regex.

Lemma trimStart_head s c r : trimStart s = c :: r -> is_space c = false.
Proof.
  induction s as [| d s IH]; simpl; [done |].
  destruct (is_space d) eqn:E; [done |]. by intros [= <- _].
Qed.

Lemma trimStart_nil s :
  trimStart s = [] <-> Forall (fun c => is_space c = true) s.
Proof.
  induction s as [| d s IH]; simpl; [done |].
  destruct (is_space d) eqn:E.
  - rewrite IH, Forall_cons. tauto.
  - split; [done |]. intros H. apply Forall_cons in H as [H _]. congruence.
Qed.

Lemma trimStart_split s :
  exists p, s = p ++ trimStart s /\ Forall (fun c => is_space c = true) p.
Proof.
  induction s as [| d s (p & IH & Hp)]; simpl; [by exists [] |].
  destruct (is_space d) eqn:E; [| by exists []].
  exists (d :: p). simpl. split; [by rewrite <- IH | by constructor].
Qed.

Lemma trimStart_suffix s : exists p, s = p ++ trimStart s.
Proof. destruct (trimStart_split s) as (p & Hp & _). by exists p. Qed.

(** Trimming removes whitespace only. *)
Lemma elem_of_trimStart c s :
  c ∈ s -> is_space c = false -> c ∈ trimStart s.
Proof.
  intros Hin Hc. destruct (trimStart_split s) as (p & Hp & Hsp).
  rewrite Hp, elem_of_app in Hin. destruct Hin as [Hin | Hin]; [| done].
  rewrite Forall_forall in Hsp. apply Hsp in Hin. congruence.
Qed.

Lemma elem_of_trim c s : c ∈ s -> is_space c = false -> c ∈ trim s.
Proof.
  intros Hin Hc. unfold trim, trimEnd.
  apply list_elem_of_In, in_rev. rewrite rev_involutive.
  apply list_elem_of_In, elem_of_trimStart; [| done].
  apply list_elem_of_In, in_rev. rewrite rev_involutive.
  by apply list_elem_of_In, elem_of_trimStart.
Qed.

Lemma trimStart_fixed s : trimStart (trimStart s) = trimStart s.
Proof.
  destruct (trimStart s) as [| c r] eqn:E; [done |].
  apply trimStart_head in E. simpl. by rewrite E.
Qed.

Lemma trim_nil s : trim s = [] <-> Forall (fun c => is_space c = true) s.
Proof.
  unfold trim, trimEnd. rewrite <- trimStart_nil.
  destruct (trimStart s) as [| c r] eqn:E; [done |].
  split; [| done]. intros H. exfalso.
  apply (f_equal (@rev N)) in H. rewrite rev_involutive in H. simpl in H.
  apply trimStart_nil in H. rewrite Forall_app, Forall_singleton in H.
  apply trimStart_head in E. destruct H as [_ H]. congruence.
Qed.

(** A trimmed string has nothing left to trim. *)
Lemma trim_fixed s : trim (trim s) = trim s.
Proof.
  unfold trim, trimEnd.
  set (a := trimStart s). set (b := trimStart (rev a)).
  assert (Hstart : trimStart (rev b) = rev b).
  { destruct b as [| c r] eqn:Eb; [done |].
    destruct (trimStart_suffix (rev a)) as [p Hp]. fold b in Hp. rewrite Eb in Hp.
    apply (f_equal (@rev N)) in Hp. rewrite rev_involutive, rev_app_distr in Hp.
    destruct (rev (c :: r)) as [| d q] eqn:Er.
    { apply (f_equal (@length N)) in Er. rewrite length_rev in Er. done. }
    simpl in Hp. subst a. apply trimStart_head in Hp. simpl. by rewrite Hp. }
  rewrite Hstart, rev_involutive. subst b. by rewrite trimStart_fixed.
Qed.

Lemma letter_or_space_digit c :
  is_digit c = true -> RegisterScreen.letter_or_space c = false.
Proof.
  intros H. unfold RegisterScreen.letter_or_space.
  rewrite (digit_not_space c H), orb_false_r.
  unfold is_digit, is_lower, is_upper in *.
  apply andb_true_iff in H as [H1 H2]. apply N.leb_le in H1, H2.
  destruct (N.leb_spec 97 c), (N.leb_spec 65 c), (N.leb_spec c 90); cbn; try lia;
    try done.
Qed.

(** X1. [validateName] accepts exactly the names that, once trimmed, have at
    least two code units, all of them letters of [[a-zA-Z]] or whitespace;
    whitespace around the name is ignored, and a name with a digit is
    rejected. *)
Theorem validateName_accepts (name : jsstring) :
  (RegisterScreen.validateName name = true <->
     (2 <= strlen (trim name))%nat /\
     Forall (fun c => RegisterScreen.letter_or_space c = true) (trim name)) /\
  RegisterScreen.validateName (trim name) = RegisterScreen.validateName name /\
  (Exists (fun c => is_digit c = true) name ->
     RegisterScreen.validateName name = false).
Proof.
  assert (Hiff : forall n,
    RegisterScreen.validateName n = true <->
      (2 <= strlen (trim n))%nat /\
      Forall (fun c => RegisterScreen.letter_or_space c = true) (trim n)).
  { intros n. unfold RegisterScreen.validateName.
    rewrite andb_true_iff, Nat.leb_le, test_anchored_Lang, Lang_plus_class.
    split; [tauto |]. intros [Hl Hf]. repeat split; try done.
    intros E. rewrite E in Hl. simpl in Hl. lia. }
  split; [apply Hiff |]. split.
  - unfold RegisterScreen.validateName. by rewrite trim_fixed.
  - intros Hd. apply not_true_is_false. intros Hv.
    apply Hiff in Hv as [Hlen Hall].
    apply Exists_exists in Hd as (c & Hin & Hc).
    rewrite Forall_forall in Hall.
    assert (Hin' : c ∈ trim name) by by apply elem_of_trim, digit_not_space.
    apply Hall in Hin'. rewrite (letter_or_space_digit c Hc) in Hin'. done.
Qed.

(** The theorem on ["Ann Lee"], on the same name with spaces around it, and
    on ["Ann 2"]. *)
Lemma validateName_accepts_witness :
  RegisterScreen.validateName (js "Ann Lee") = true /\
  RegisterScreen.validateName (js "  Ann Lee ") = true /\
  RegisterScreen.validateName (js "Ann 2") = false.
Proof.
  split; [| split].
  - destruct (validateName_accepts (js "Ann Lee")) as ([_ Hacc] & _).
    apply Hacc. split; [vm_compute; lia |].
    vm_compute. repeat constructor.
  - destruct (validateName_accepts (js "  Ann Lee ")) as (_ & <- & _).
    reflexivity.
  - destruct (validateName_accepts (js "Ann 2")) as (_ & _ & Hrej).
    apply Hrej, Exists_exists. exists 50. split; [| reflexivity].
    vm_compute. repeat first [ by left | right ].
Defined.

Lemma email_shape_not_blank s :
  RegisterScreen.email_shape s -> ~ Forall (fun c => is_space c = true) s.
Proof.
  intros (l & d & t & -> & Hl & _ & _ & Hall) Hsp.
  destruct l as [| c l]; [done |].
  apply Forall_cons in Hsp as [Hc _].
  apply Forall_cons in Hall as [Hc' _].
  apply not_space_at_inv in Hc' as [Hc' _]. congruence.
Qed.

(** X2. The two screens validate an email alike: [validateEmail] of the
    forgot-password screen returns the empty message exactly when
    [validateEmail] of the register screen returns [true]. It answers
    ['Email is required'] exactly for the strings made of whitespace only
    (the empty string among them), and ['Please enter a valid email
    address'] for every other rejected string. *)
Theorem validateEmail_screens_agree (s : jsstring) :
  (ForgotPasswordScreen.validateEmail s = [] <->
     RegisterScreen.validateEmail s = true) /\
  (ForgotPasswordScreen.validateEmail s = js "Email is required" <->
     Forall (fun c => is_space c = true) s) /\
  (RegisterScreen.validateEmail s = false ->
   ~ Forall (fun c => is_space c = true) s ->
     ForgotPasswordScreen.validateEmail s
       = js "Please enter a valid email address").
Proof.
  unfold ForgotPasswordScreen.validateEmail, RegisterScreen.validateEmail.
  change ForgotPasswordScreen.EMAIL_REGEX with RegisterScreen.emailRegex.
  destruct (test_anchored RegisterScreen.emailRegex s) eqn:Hm.
  - assert (Hnb : truthy (trim s) = true).
    { apply truthy_true. rewrite trim_nil.
      by apply email_shape_not_blank, emailRegex_shape. }
    rewrite Hnb. cbn [negb]. split; [done |]. split; [| done].
    split; [discriminate |]. intros Hsp. exfalso.
    by apply (email_shape_not_blank s); [apply emailRegex_shape |].
  - destruct (truthy (trim s)) eqn:Ht; cbn [negb].
    + apply truthy_true in Ht. rewrite trim_nil in Ht.
      split; [split; discriminate |]. split; [| done].
      split; [intros H; vm_compute in H; discriminate | done].
    + apply truthy_false in Ht. rewrite trim_nil in Ht.
      split; [split; discriminate |]. split; [done |]. intros _ Hn. done.
Qed.

(** The theorem on a string of two spaces and on ["ann.example.com"]. *)
Lemma validateEmail_screens_agree_witness :
  ForgotPasswordScreen.validateEmail (js "  ") = js "Email is required" /\
  ForgotPasswordScreen.validateEmail (js "ann.example.com")
    = js "Please enter a valid email address".
Proof.
  split.
  - apply (proj1 (proj2 (validateEmail_screens_agree (js "  ")))).
    vm_compute. repeat constructor.
  - apply (proj2 (proj2 (validateEmail_screens_agree (js "ann.example.com")))).
    + reflexivity.
    + intros H. apply Forall_cons in H as [H _]. vm_compute in H. discriminate.
Defined.

(** X3. [validateOTP] accepts exactly the strings of six digits. It answers
    ['OTP is required'] exactly for the strings made of whitespace only, and
    otherwise one of its two other messages. *)
Theorem validateOTP_accepts (s : jsstring) :
  (ForgotPasswordScreen.validateOTP s = [] <->
     strlen s = 6%nat /\ Forall (fun c => is_digit c = true) s) /\
  (ForgotPasswordScreen.validateOTP s = js "OTP is required" <->
     Forall (fun c => is_space c = true) s) /\
  (ForgotPasswordScreen.validateOTP s = [] \/
   ForgotPasswordScreen.validateOTP s = js "OTP is required" \/
   ForgotPasswordScreen.validateOTP s = js "OTP must be 6 digits" \/
   ForgotPasswordScreen.validateOTP s = js "OTP must contain only numbers").
Proof.
  unfold ForgotPasswordScreen.validateOTP.
  destruct (truthy (trim s)) eqn:Ht; cbn [negb].
  - apply truthy_true in Ht. rewrite trim_nil in Ht.
    destruct (strlen s =? 6)%nat eqn:Hl; cbn [negb].
    + apply Nat.eqb_eq in Hl.
      destruct (test_anchored (Plus (Class is_digit)) s) eqn:Hm; cbn [negb].
      * apply test_anchored_Lang, Lang_plus_class in Hm as [_ Hm].
        split; [done |]. split; [| auto]. split; [discriminate | done].
      * split; [| split; [| auto]].
        -- split; [intros H; vm_compute in H; discriminate |].
           intros [_ Hd]. exfalso.
           assert (Hm' : test_anchored (Plus (Class is_digit)) s = true).
           { apply test_anchored_Lang, Lang_plus_class. split; [| done].
             intros ->. done. }
           congruence.
        -- split; [intros H; vm_compute in H; discriminate | done].
    + apply Nat.eqb_neq in Hl. split; [| split; [| auto]].
      * split; [intros H; vm_compute in H; discriminate | by intros []].
      * split; [intros H; vm_compute in H; discriminate | done].
  - apply truthy_false in Ht. rewrite trim_nil in Ht.
    split; [| split; [done | auto]].
    split; [intros H; vm_compute in H; discriminate |].
    intros [Hl Hd]. exfalso.
    destruct s as [| c s]; [done |].
    apply Forall_cons in Ht as [Hc _]. apply Forall_cons in Hd as [Hc' _].
    apply digit_not_space in Hc'. congruence.
Qed.

(** X4. [handleResetPassword] goes on to its delay exactly when the new
    password has at least six code units and the confirmation equals it.
    Otherwise nothing waits, [isLoading] and [currentStep] stay, and
    [errors] becomes the record of the two messages, one of which is not
    empty. *)
Theorem handleResetPassword_accepts (sc : ForgotPasswordScreen.screen) :
  let st := ForgotPasswordScreen.ui sc in
  let sc' := ForgotPasswordScreen.handleResetPassword sc in
  let accepted :=
    (6 <= strlen (ForgotPasswordScreen.newPassword st))%nat /\
    ForgotPasswordScreen.confirmPassword st = ForgotPasswordScreen.newPassword st in
  (ForgotPasswordScreen.pending sc'
     = ForgotPasswordScreen.pending sc
       ++ [ForgotPasswordScreen.ResetPassword_waiting] <-> accepted) /\
  (accepted ->
     ForgotPasswordScreen.ui sc' = ForgotPasswordScreen.setIsLoading true st) /\
  (~ accepted ->
     ForgotPasswordScreen.pending sc' = ForgotPasswordScreen.pending sc /\
     ForgotPasswordScreen.ui sc' =
       ForgotPasswordScreen.setErrors
         (<[js "newPassword" :=
              ForgotPasswordScreen.validateNewPassword
                (ForgotPasswordScreen.newPassword st)]>
            {[js "confirmPassword" :=
                ForgotPasswordScreen.validateConfirmPassword st
                  (ForgotPasswordScreen.confirmPassword st)]}) st /\
     (ForgotPasswordScreen.validateNewPassword
        (ForgotPasswordScreen.newPassword st) <> [] \/
      ForgotPasswordScreen.validateConfirmPassword st
        (ForgotPasswordScreen.confirmPassword st) <> [])).
Proof.
  intros st sc' accepted. subst st sc' accepted.
  unfold ForgotPasswordScreen.handleResetPassword.
  set (st := ForgotPasswordScreen.ui sc).
  pose proof (validateNewPassword_min_length
                (ForgotPasswordScreen.newPassword st)) as Hnew.
  assert (Hconf :
    ForgotPasswordScreen.newPassword st <> [] ->
    (ForgotPasswordScreen.validateConfirmPassword st
       (ForgotPasswordScreen.confirmPassword st) = [] <->
     ForgotPasswordScreen.confirmPassword st
       = ForgotPasswordScreen.newPassword st)).
  { intros Hne. unfold ForgotPasswordScreen.validateConfirmPassword, streq.
    destruct (ForgotPasswordScreen.confirmPassword st) as [| c q] eqn:Ec.
    - cbn. split; [intros Hx; vm_compute in Hx; discriminate | congruence].
    - cbn [truthy negb]. case_bool_decide; cbn [negb].
      + done.
      + split; [intros Hx; vm_compute in Hx; discriminate | done]. }
  destruct (truthy (ForgotPasswordScreen.validateNewPassword
                      (ForgotPasswordScreen.newPassword st))) eqn:E1.
  - apply truthy_true in E1. cbn [orb].
    assert (Hno : ~ ((6 <= strlen (ForgotPasswordScreen.newPassword st))%nat /\
                     ForgotPasswordScreen.confirmPassword st
                       = ForgotPasswordScreen.newPassword st)).
    { intros [Hl _]. by apply Hnew in Hl. }
    split; [| split; [done |]].
    + split; [| done]. cbn. intros H. exfalso.
      apply (f_equal (@length _)) in H. rewrite length_app in H. simpl in H. lia.
    + intros _. split; [done |]. split; [done | by left].
  - apply truthy_false in E1. cbn [orb].
    assert (Hlen : (6 <= strlen (ForgotPasswordScreen.newPassword st))%nat)
      by by apply Hnew.
    assert (Hne : ForgotPasswordScreen.newPassword st <> []).
    { intros E. rewrite E in Hlen. simpl in Hlen. lia. }
    specialize (Hconf Hne).
    destruct (truthy (ForgotPasswordScreen.validateConfirmPassword st
                        (ForgotPasswordScreen.confirmPassword st))) eqn:E2.
    + apply truthy_true in E2.
      assert (Hno : ~ ((6 <= strlen (ForgotPasswordScreen.newPassword st))%nat /\
                       ForgotPasswordScreen.confirmPassword st
                         = ForgotPasswordScreen.newPassword st)).
      { intros [_ Heq]. by apply Hconf in Heq. }
      split; [| split; [done |]].
      * split; [| done]. cbn. intros H. exfalso.
        apply (f_equal (@length _)) in H. rewrite length_app in H. simpl in H. lia.
      * intros _. split; [done |]. split; [done | by right].
    + apply truthy_false in E2. apply Hconf in E2.
      split; [done |]. split; [done |]. intros Hn. exfalso. by apply Hn.
Qed.

(** The theorem on a new password of seven characters, confirmed and not
    confirmed. *)
Lemma handleResetPassword_accepts_witness :
  let typed := fun confirm =>
    {| ForgotPasswordScreen.ui :=
         ForgotPasswordScreen.setConfirmPassword confirm
           (ForgotPasswordScreen.setNewPassword (js "secret1")
              (ForgotPasswordScreen.setCurrentStep
                 ForgotPasswordScreen.Step_newPassword
                 ForgotPasswordScreen.initial));
       ForgotPasswordScreen.log := [];
       ForgotPasswordScreen.pending := [] |} in
  ForgotPasswordScreen.isLoading
    (ForgotPasswordScreen.ui
       (ForgotPasswordScreen.handleResetPassword (typed (js "secret1")))) = true /\
  ForgotPasswordScreen.pending
    (ForgotPasswordScreen.handleResetPassword (typed (js "secret2"))) = [].
Proof.
  intros typed. split.
  - destruct (handleResetPassword_accepts (typed (js "secret1")))
      as (_ & Hyes & _).
    rewrite Hyes; [reflexivity |]. split; [vm_compute; lia | reflexivity].
  - destruct (handleResetPassword_accepts (typed (js "secret2")))
      as (_ & _ & Hno).
    destruct Hno as (Hp & _); [| exact Hp].
    intros [_ H]. vm_compute in H. discriminate.
Defined.

End MoreValidation.

(* ===================================================================== *)
(** * Further properties: the registration form *)
(* ===================================================================== *)

Section MoreRegister.
Import JS Platform RegisterScreen RegisterFlow.

(** X5. [handleInputChange] stores the value in its field and sets the
    entry of that field in [errors] to the message of its check, or removes
    it when the check passes (the confirmation is compared with the password
    of the form as it is). The other fields, the other entries of [errors],
    the terms flag and [isLoading] are left as they are: in particular a
    change of the password does not touch the entry of the confirmation. *)
Theorem handleInputChange_effect (f : Field) (value : jsstring) (st : state) :
  let st' := handleInputChange f value st in
  field_value f (formData st') = value /\
  field_error f (errors st')
    = field_check f value (password (formData st)) /\
  (forall g, g <> f ->
     field_value g (formData st') = field_value g (formData st) /\
     field_error g (errors st') = field_error g (errors st)) /\
  agreeToTerms st' = agreeToTerms st /\ isLoading st' = isLoading st.
Proof.
  intros st'. subst st'.
  split; [by destruct f |]. split.
  - destruct f; cbn; try by destruct (validateName value).
    + by destruct (validateEmail value).
    + by destruct (isValid (validatePassword value)).
    + by destruct (streq value (password (formData st))).
  - split; [| done]. intros g Hg. by destruct f, g.
Qed.

(** The theorem on a password typed after its confirmation. *)
Lemma handleInputChange_effect_witness :
  let st := handleInputChange Field_confirmPassword (js "Abcdefg1")
              (handleInputChange Field_password (js "Abcdefg1") initial) in
  field_error Field_confirmPassword
    (errors (handleInputChange Field_password (js "Zyxwvut9") st)) = None.
Proof.
  intros st.
  destruct (handleInputChange_effect Field_password (js "Zyxwvut9") st)
    as (_ & _ & Hframe & _).
  destruct (Hframe Field_confirmPassword) as [_ Herr]; [discriminate |].
  rewrite Herr. reflexivity.
Defined.

Lemma register_run_app pr sc es1 es2 :
  run pr sc (es1 ++ es2) =
  match run pr sc es1 with
  | Some sc' => run pr sc' es2
  | None => None
  end.
Proof.
  revert sc. induction es1 as [| e es1 IH]; intros sc; simpl; [done |].
  destruct (step pr sc e); [apply IH | done].
Qed.

Lemma register_reachable_ind pr (P : screen -> Prop) :
  P mounted ->
  (forall sc e sc', P sc -> step pr sc e = Some sc' -> P sc') ->
  forall sc, reachable pr sc -> P sc.
Proof.
  intros H0 Hstep sc [es Hrun]. revert sc Hrun.
  induction es as [| e es IH] using rev_ind; intros sc Hrun.
  - simpl in Hrun. by injection Hrun as <-.
  - rewrite register_run_app in Hrun.
    destruct (run pr mounted es) as [sc0 |] eqn:E; [| done].
    simpl in Hrun. destruct (step pr sc0 e) as [sc1 |] eqn:Es; [| done].
    injection Hrun as <-. apply (Hstep sc0 e); [by apply IH | done].
Qed.

(** When [handleRegister] goes on. *)
Lemma proceeds_iff sc :
  proceeds sc <->
  ~ some_field_empty (formData (ui sc)) /\ agreeToTerms (ui sc) = true /\
  errors (ui sc) = no_errors.
Proof.
  unfold proceeds, handleRegister.
  destruct (negb (truthy (name (formData (ui sc))))
            || negb (truthy (email (formData (ui sc))))
            || negb (truthy (password (formData (ui sc))))
            || negb (truthy (confirmPassword (formData (ui sc))))) eqn:Hempty.
  - apply some_field_empty_test in Hempty. cbn. split; [lia | tauto].
  - assert (Hfull : ~ some_field_empty (formData (ui sc))).
    { rewrite <- some_field_empty_test. congruence. }
    destruct (agreeToTerms (ui sc)); cbn [negb].
    + destruct (0 <? keys_length (errors (ui sc)))%nat eqn:Hkeys.
      * apply Nat.ltb_lt in Hkeys. cbn. split; [lia |].
        intros (_ & _ & Hnone). apply keys_length_zero in Hnone. lia.
      * apply Nat.ltb_ge in Hkeys. cbn. split; [| done]. intros _.
        repeat split; try done. apply keys_length_zero. lia.
    + cbn. split; [lia | by intros (_ & ? & _)].
Qed.

(** Only a change of a field touches the form and its errors. *)
Lemma register_step_form pr sc e sc' :
  step pr sc e = Some sc' ->
  (formData (ui sc') = formData (ui sc) /\ errors (ui sc') = errors (ui sc)) \/
  (exists f value, ui sc' = handleInputChange f value (ui sc)).
Proof.
  destruct e; cbn [step]; intros H; simplify_eq; cbn; eauto.
  - destruct (isLoading (ui sc)); simplify_eq. left.
    unfold handleRegister. repeat case_match; done.
  - left. unfold handleGoToLogin. by case_match.
  - left. unfold timer_elapsed in H. destruct (pending sc); simplify_eq. done.
Qed.

Lemma errors_current_step pr sc e sc' :
  errors_current (ui sc) -> step pr sc e = Some sc' -> errors_current (ui sc').
Proof.
  intros Hinv Hs f Hf.
  apply register_step_form in Hs as [[Hfd Herr] | (g & value & ->)].
  - rewrite Hfd, Herr. by apply Hinv.
  - destruct (handleInputChange_effect g value (ui sc)) as (Hv & He & Hframe & _).
    destruct f, g; try done;
      try (left; rewrite He, Hv; reflexivity);
      match goal with
      | |- context [field_error ?f (errors (handleInputChange _ _ _))] =>
          destruct (Hframe f) as [Ev Ee]; [discriminate |];
          rewrite Ev, Ee; by apply Hinv
      end.
Qed.

(** X6. On a screen reached through its controls, an entry of [errors] for
    the name, the email or the password is the message of the check of the
    value the field holds now. So when [handleRegister] goes on to its
    delay, the terms are agreed to and the name, the email and the password
    pass [validateName], [validateEmail] and [validatePassword]. *)
Theorem register_submits_valid_form (pr : props) (sc : screen) :
  reachable pr sc ->
  (forall f m, f <> Field_confirmPassword ->
     field_error f (errors (ui sc)) = Some m ->
     field_check f (field_value f (formData (ui sc))) [] = Some m) /\
  (proceeds sc ->
     agreeToTerms (ui sc) = true /\
     validateName (name (formData (ui sc))) = true /\
     validateEmail (email (formData (ui sc))) = true /\
     isValid (validatePassword (password (formData (ui sc)))) = true).
Proof.
  intros Hr.
  assert (Hinv : errors_current (ui sc)).
  { revert sc Hr.
    apply (register_reachable_ind pr (fun sc => errors_current (ui sc))).
    - intros f _. right. by destruct f.
    - intros sc0 e sc1 IH Hs. by eapply errors_current_step. }
  split.
  - intros f m Hf Hm. destruct (Hinv f Hf) as [H | [H _]]; congruence.
  - intros Hp. apply proceeds_iff in Hp as (Hfull & Hagree & Hnone).
    split; [done |]. unfold some_field_empty in Hfull.
    pose proof (Hinv Field_name ltac:(discriminate)) as Hn.
    pose proof (Hinv Field_email ltac:(discriminate)) as He.
    pose proof (Hinv Field_password ltac:(discriminate)) as Hpw.
    rewrite Hnone in Hn, He, Hpw.
    unfold no_errors in Hn, He, Hpw.
    cbn [field_error field_check field_value
         Errors.name Errors.email Errors.password] in Hn, He, Hpw.
    repeat split.
    + destruct Hn as [Hn | [_ Hn]]; [| tauto].
      destruct (validateName (name (formData (ui sc)))) eqn:E;
        [done | discriminate Hn].
    + destruct He as [He | [_ He]]; [| tauto].
      destruct (validateEmail (email (formData (ui sc)))) eqn:E;
        [done | discriminate He].
    + destruct Hpw as [Hpw | [_ Hpw]]; [| tauto].
      destruct (isValid (validatePassword (password (formData (ui sc))))) eqn:E;
        [done |].
      destruct (validatePassword_first_failing (password (formData (ui sc))))
        as [Hv Hm].
      rewrite Hm in Hpw. rewrite Hv in E. unfold password_rules in *.
      cbn in E, Hpw. repeat case_match; simplify_eq.
Qed.

(** The theorem on a filled-in form. *)
Lemma register_submits_valid_form_witness :
  exists sc,
    run {| onRegisterSuccess := false; navigation := true |} mounted
      [Change Field_name (js "Ann Lee"); Change Field_email (js "ann@example.com");
       Change Field_password (js "Abcdefg1");
       Change Field_confirmPassword (js "Abcdefg1"); ToggleAgree] = Some sc /\
    validateEmail (email (formData (ui sc))) = true.
Proof.
  eexists. split; [vm_compute; reflexivity |].
  match goal with
  | |- validateEmail (email (formData (ui ?sc))) = true =>
      destruct (register_submits_valid_form
                  {| onRegisterSuccess := false; navigation := true |} sc)
        as [_ Hvalid]
  end.
  - exists [Change Field_name (js "Ann Lee");
            Change Field_email (js "ann@example.com");
            Change Field_password (js "Abcdefg1");
            Change Field_confirmPassword (js "Abcdefg1"); ToggleAgree].
    vm_compute. reflexivity.
  - destruct Hvalid as (_ & _ & He & _); [reflexivity | exact He].
Defined.

Lemma register_step_loading pr sc e sc' :
  pending sc = (if isLoading (ui sc) then 1 else 0)%nat ->
  step pr sc e = Some sc' ->
  pending sc' = (if isLoading (ui sc') then 1 else 0)%nat.
Proof.
  intros Hinv.
  destruct e; cbn [step]; intros H; simplify_eq; cbn; try done.
  - destruct (isLoading (ui sc)) eqn:El; simplify_eq.
    unfold handleRegister. repeat case_match; cbn in *; rewrite ?El;
      first [ lia | congruence ].
  - unfold handleGoToLogin. by destruct (navigation pr).
  - unfold timer_elapsed in H. destruct (pending sc) as [| n] eqn:Ep; simplify_eq.
    cbn. destruct (isLoading (ui sc)); simplify_eq. done.
Qed.

(** X7. On a screen reached through its controls at most one
    [handleRegister] waits for its delay, and one does exactly while
    [isLoading] is set. While it is set the delay can elapse, and then the
    success alert is shown, [isLoading] is cleared and nothing waits. *)
Theorem register_one_in_flight (pr : props) (sc : screen) :
  reachable pr sc ->
  pending sc = (if isLoading (ui sc) then 1 else 0)%nat /\
  (isLoading (ui sc) = true ->
     step pr sc PressRegister = None /\
     exists sc',
       step pr sc TimerElapsed = Some sc' /\
       isLoading (ui sc') = false /\ pending sc' = 0%nat /\
       log sc' = log sc ++ [ConsoleLog (js "Registration data:");
                            Alert (js "Success")
                              (js "Account created successfully!")]).
Proof.
  intros Hr.
  assert (Hinv : pending sc = (if isLoading (ui sc) then 1 else 0)%nat).
  { revert sc Hr.
    apply (register_reachable_ind pr
             (fun sc => pending sc = (if isLoading (ui sc) then 1 else 0)%nat)).
    - reflexivity.
    - intros sc0 e sc1 IH Hs. by eapply register_step_loading. }
  split; [done |]. intros Hl. rewrite Hl in Hinv. cbn [step]. rewrite Hl.
  split; [done |]. unfold timer_elapsed. rewrite Hinv.
  eexists. split; [reflexivity |]. cbn. by rewrite <- app_assoc.
Qed.

(** The theorem on a filled-in form whose register button was pressed. *)
Lemma register_one_in_flight_witness :
  exists sc,
    run {| onRegisterSuccess := false; navigation := true |} mounted
      [Change Field_name (js "Ann Lee"); Change Field_email (js "ann@example.com");
       Change Field_password (js "Abcdefg1");
       Change Field_confirmPassword (js "Abcdefg1"); ToggleAgree;
       PressRegister] = Some sc /\
    pending sc = 1%nat /\
    step {| onRegisterSuccess := false; navigation := true |} sc PressRegister
      = None.
Proof.
  eexists. split; [vm_compute; reflexivity |].
  match goal with
  | |- pending ?sc = _ /\ _ =>
      destruct (register_one_in_flight
                  {| onRegisterSuccess := false; navigation := true |} sc)
        as [Hp Hl]
  end.
  - exists [Change Field_name (js "Ann Lee");
            Change Field_email (js "ann@example.com");
            Change Field_password (js "Abcdefg1");
            Change Field_confirmPassword (js "Abcdefg1"); ToggleAgree;
            PressRegister].
    vm_compute. reflexivity.
  - split; [exact Hp |]. destruct Hl as [Hno _]; [reflexivity | exact Hno].
Defined.

Lemma validateName_nonempty n : validateName n = true -> n <> [].
Proof. intros H ->. vm_compute in H. discriminate. Qed.

Lemma validateEmail_nonempty e : validateEmail e = true -> e <> [].
Proof. intros H ->. vm_compute in H. discriminate. Qed.

Lemma validatePassword_nonempty p :
  isValid (validatePassword p) = true -> p <> [].
Proof. intros H ->. vm_compute in H. discriminate. Qed.

(** X8. The confirmation is checked against the password only when the
    confirmation itself is typed. With a valid name and email, if the
    confirmation [q] is typed while the password is [q] and the password is
    then changed to any valid [p], no entry of [errors] is left and
    [handleRegister] goes on to its delay with password [p] and
    confirmation [q], whether or not they are equal. *)
Theorem register_confirmation_not_rechecked (pr : props)
    (n e p q : jsstring) :
  validateName n = true -> validateEmail e = true ->
  isValid (validatePassword p) = true -> q <> [] ->
  exists sc,
    run pr mounted
      [Change Field_name n; Change Field_email e; Change Field_password q;
       Change Field_confirmPassword q; Change Field_password p; ToggleAgree;
       PressRegister] = Some sc /\
    isLoading (ui sc) = true /\ pending sc = 1%nat /\ log sc = [] /\
    errors (ui sc) = no_errors /\
    password (formData (ui sc)) = p /\
    confirmPassword (formData (ui sc)) = q.
Proof.
  intros Hn He Hp Hq.
  pose proof (validateName_nonempty n Hn) as Hn'.
  pose proof (validateEmail_nonempty e He) as He'.
  pose proof (validatePassword_nonempty p Hp) as Hp'.
  apply truthy_true in Hn', He', Hp', Hq.
  eexists. split.
  - cbn [run step]. unfold set_ui, handleInputChange, validateField. cbn.
    rewrite Hn, He, Hp. unfold streq. rewrite bool_decide_eq_true_2 by done.
    cbn. unfold handleRegister. cbn. rewrite Hn', He', Hp', Hq. cbn.
    reflexivity.
  - by repeat split.
Qed.

(** The theorem on the passwords ["Abcdefg1"] and ["other"]. *)
Lemma register_confirmation_not_rechecked_witness :
  exists sc,
    run {| onRegisterSuccess := false; navigation := true |} mounted
      [Change Field_name (js "Ann Lee"); Change Field_email (js "ann@example.com");
       Change Field_password (js "other");
       Change Field_confirmPassword (js "other");
       Change Field_password (js "Abcdefg1"); ToggleAgree; PressRegister]
      = Some sc /\
    isLoading (ui sc) = true /\
    password (formData (ui sc)) = js "Abcdefg1" /\
    confirmPassword (formData (ui sc)) = js "other".
Proof.
  destruct (register_confirmation_not_rechecked
              {| onRegisterSuccess := false; navigation := true |}
              (js "Ann Lee") (js "ann@example.com") (js "Abcdefg1") (js "other"))
    as (sc & Hrun & Hl & _ & _ & _ & Hp & Hq);
    [reflexivity | reflexivity | reflexivity | discriminate |].
  exists sc. split; [exact Hrun |]. split; [exact Hl |].
  split; [exact Hp | exact Hq].
Defined.

End MoreRegister.

(* ===================================================================== *)
(** * Further properties: the password-recovery screen *)
(* ===================================================================== *)

Section MoreForgotPassword.
Import JS Regex Platform ForgotPasswordScreen WizardProgress.

Ltac unfold_handlers :=
  unfold settle, handleSendOTP, handleSendOTP_settled, handleVerifyOTP,
    handleVerifyOTP_settled, handleResetPassword, handleResetPassword_settled,
    handleResendOTP, handleResendOTP_settled, handleBackStep,
    handleBackToLogin, animateStepTransition, set_ui, add_log, await,
    timer_promise in *.

Section Steps.
Variable toLowerCase : jsstring -> jsstring.
Variable pr : props.

Lemma clearError_effect key st :
  no_error_shown (errors (clearError key st)) key /\
  (forall k, k <> key ->
     errors (clearError key st) !! k = errors st !! k).
Proof.
  unfold clearError, no_error_shown.
  destruct (errors st !! key) as [m |] eqn:E.
  - destruct (truthy m) eqn:Et; cbn.
    + rewrite lookup_insert_eq. split; [done |].
      intros k Hk. by rewrite lookup_insert_ne.
    + rewrite E. apply truthy_false in Et. done.
  - by rewrite E.
Qed.

(** X9. Typing into a field clears the error of that field: after a change
    event the entry of its key in [errors] is absent or the empty string,
    while every other key of [errors], the step, the waiting handlers and
    the log are as before. *)
Theorem change_clears_error (sc : screen) (e : event) (sc' : screen)
    (key : jsstring) :
  step toLowerCase pr sc e = Some sc' ->
  changed_field e = Some key ->
  no_error_shown (errors (ui sc')) key /\
  (forall k, k <> key -> errors (ui sc') !! k = errors (ui sc) !! k) /\
  currentStep (ui sc') = currentStep (ui sc) /\
  pending sc' = pending sc /\ log sc' = log sc.
Proof.
  destruct e; cbn [step changed_field]; intros H Hk; try discriminate;
    injection Hk as <-; case_match; simplify_eq; cbn [ui set_ui pending log];
    match goal with
    | |- context [clearError ?k ?st] =>
        destruct (clearError_effect k st) as [H1 H2]
    end;
    (split; [exact H1 |]); (split; [exact H2 |]);
    unfold clearError; repeat case_match; done.
Qed.

Lemma step_email sc e sc' :
  step toLowerCase pr sc e = Some sc' ->
  email (ui sc') = email (ui sc) \/
  exists value, email (ui sc') = trim (toLowerCase value).
Proof.
  destruct e; cbn [step]; intros H; repeat case_match; simplify_eq;
    unfold_handlers; unfold clearError; cbn; repeat case_match; cbn; eauto.
Qed.

(** X10. The email of the screen is always trimmed: it has no whitespace at
    either end. So [validateEmail] answers ['Email is required'] for it
    exactly when it is the empty string. *)
Theorem email_field_trimmed (sc : screen) :
  reachable toLowerCase pr sc ->
  trim (email (ui sc)) = email (ui sc) /\
  (validateEmail (email (ui sc)) = js "Email is required" <->
     email (ui sc) = []).
Proof.
  intros Hr.
  assert (Ht : trim (email (ui sc)) = email (ui sc)).
  { induction Hr as [| sc0 e sc1 _ IH Hs] using reachable_ind'; [done |].
    apply step_email in Hs as [-> | [value ->]]; [done | apply trim_fixed]. }
  split; [done |].
  destruct (validateEmail_screens_agree (email (ui sc))) as (_ & -> & _).
  rewrite <- trim_nil, Ht. done.
Qed.

Lemma step_resendTimer sc e sc' :
  resendTimer (ui sc) <= 60 ->
  step toLowerCase pr sc e = Some sc' ->
  resendTimer (ui sc') <= 60.
Proof.
  intros Hle.
  destruct e; cbn [step]; intros H; repeat case_match; simplify_eq;
    unfold_handlers; unfold clearError; cbn; repeat case_match; cbn; lia.
Qed.

(** X11. The resend countdown never exceeds 60. While it is above zero
    the resend button is disabled and [handleResendOTP] does nothing; at
    zero a call restarts it at 60 and waits for its delay. *)
Theorem resend_countdown_bounded (sc : screen) :
  reachable toLowerCase pr sc ->
  resendTimer (ui sc) <= 60 /\
  (0 < resendTimer (ui sc) ->
     step toLowerCase pr sc PressResend = None /\ handleResendOTP sc = sc) /\
  (resendTimer (ui sc) = 0 ->
     resendTimer (ui (handleResendOTP sc)) = 60 /\
     pending (handleResendOTP sc) = pending sc ++ [ResendOTP_waiting]).
Proof.
  intros Hr. split; [| split].
  - induction Hr as [| sc0 e sc1 _ IH Hs] using reachable_ind'; [done |].
    by eapply step_resendTimer.
  - intros Hpos. apply N.ltb_lt in Hpos. cbn [step]. unfold handleResendOTP.
    rewrite Hpos. cbn. by rewrite andb_false_r.
  - intros Hz. unfold handleResendOTP. rewrite Hz. cbn. done.
Qed.

(** Some handler that clears [isLoading] is waiting. *)
Lemma step_loading sc e sc' :
  (isLoading (ui sc) = true ->
   exists t, t ∈ pending sc /\ is_Some (target t)) ->
  step toLowerCase pr sc e = Some sc' ->
  (isLoading (ui sc') = true ->
   exists t, t ∈ pending sc' /\ is_Some (target t)).
Proof.
  intros Hinv Hs.
  destruct (submission e (ui sc)) as [t |] eqn:Esub.
  - destruct (step_submission toLowerCase pr sc e sc' t Hs Esub)
      as (_ & Htg & Hok & Hko).
    destruct (passes_validation e (ui sc)) eqn:Ep.
    + destruct (Hok eq_refl) as (Hpend & _). intros _.
      exists t. rewrite Hpend, elem_of_app, Htg. split; [right; by left | done].
    + destruct (Hko eq_refl) as (Hpend & _). rewrite Hpend.
      revert Hs Hinv.
      destruct e; cbn [step submission] in *; try discriminate;
        intros Hs Hinv; repeat case_match; simplify_eq;
        cbn [passes_validation] in Ep;
        unfold_handlers; cbn in *;
        repeat match goal with
               | H : negb _ = false |- _ => apply negb_false_iff in H
               end;
        rewrite ?Ep; cbn; done.
  - revert Hs Hinv.
    destruct e; cbn [step submission] in *; try discriminate;
      intros Hs Hinv; repeat case_match; simplify_eq;
      try (unfold_handlers; unfold clearError; cbn in *;
           repeat case_match; cbn in *; done).
    + (* the resend button *)
      unfold handleResendOTP. case_match; [done |]. cbn. intros Hl.
      destruct (Hinv Hl) as (t & Hin & Ht). exists t.
      rewrite elem_of_app. by split; [left |].
    + (* a delay elapses *)
      match goal with
      | H : pending sc !! ?i = Some ?t0 |- _ => rename H into Hi
      end.
      destruct t; unfold_handlers; cbn; try discriminate.
      intros Hl. destruct (Hinv Hl) as (t & Hin & Ht).
      exists t. split; [| done].
      apply list_elem_of_lookup in Hin as [j Hj].
      assert (j <> i) by (intros ->; rewrite Hi in Hj; simplify_eq;
                          by destruct Ht).
      apply list_elem_of_lookup.
      destruct (decide (j < i)%nat).
      * exists j. by rewrite list_lookup_delete_lt.
      * exists (pred j). rewrite list_lookup_delete_ge by lia.
        replace (S (pred j)) with j by lia. done.
Qed.

(** X12. The loading state always ends: on a reachable screen with
    [isLoading] set, some forward handler is waiting, and when its delay
    elapses [isLoading] is cleared. *)
Theorem loading_always_ends (sc : screen) :
  reachable toLowerCase pr sc ->
  isLoading (ui sc) = true ->
  exists i t sc',
    pending sc !! i = Some t /\ is_Some (target t) /\
    step toLowerCase pr sc (TimerElapsed i) = Some sc' /\
    isLoading (ui sc') = false.
Proof.
  intros Hr Hl.
  assert (Hinv : isLoading (ui sc) = true ->
                 exists t, t ∈ pending sc /\ is_Some (target t)).
  { clear Hl. induction Hr as [| sc0 e sc1 _ IH Hs] using reachable_ind'.
    - discriminate.
    - by eapply step_loading. }
  destruct (Hinv Hl) as (t & Hin & Ht).
  apply list_elem_of_lookup in Hin as [i Hi].
  destruct (timer_fires toLowerCase pr sc i t Hi) as (sc' & Hs & _ & Hload & _).
  exists i, t, sc'. repeat split; try done. by apply Hload.
Qed.

Lemma step_pending sc e sc' :
  step toLowerCase pr sc e = Some sc' ->
  pending sc' = pending sc \/
  (exists i, pending sc' = delete i (pending sc)) \/
  pending sc' = pending sc ++ [ResendOTP_waiting] \/
  (exists t, submission e (ui sc) = Some t /\
             passes_validation e (ui sc) = true /\
             pending sc' = pending sc ++ [t]).
Proof.
  intros Hs.
  destruct (submission e (ui sc)) as [t |] eqn:Esub.
  - destruct (step_submission toLowerCase pr sc e sc' t Hs Esub)
      as (_ & _ & Hok & Hko).
    destruct (passes_validation e (ui sc)) eqn:Ep.
    + destruct (Hok eq_refl) as (Hpend & _). right. right. right. by exists t.
    + destruct (Hko eq_refl) as (Hpend & _). by left.
  - revert Hs.
    destruct e; cbn [step submission] in *; try discriminate;
      intros Hs; repeat case_match; simplify_eq;
      try (left; unfold_handlers; unfold clearError; cbn;
           repeat case_match; done).
    + unfold handleResendOTP. case_match; cbn; auto.
    + right. left. eexists. by destruct t.
Qed.

Lemma rank_next_step s s' :
  (rank s' <= rank (next_step s))%nat ->
  (rank s' <= rank s)%nat \/ s' = next_step s.
Proof. destruct s, s'; cbn; intros; first [ by right | left; lia ]. Qed.

Lemma rank_previous_step s : (rank (previous_step s) <= rank s)%nat.
Proof. destruct s; cbn; lia. Qed.

(** An event extends what is covered only by an accepted submission. *)
Lemma step_covers sc e sc' s :
  step toLowerCase pr sc e = Some sc' ->
  covers sc' s ->
  covers sc s \/
  exists t, submission e (ui sc) = Some t /\
            passes_validation e (ui sc) = true /\ target t = Some s.
Proof.
  intros Hs [Hrank | (t & Hin & Ht)].
  - destruct (step_currentStep toLowerCase pr sc e sc' Hs)
      as [Hc | [[_ Hc] | (i & t & _ & Hi & Htg)]].
    + left. left. by rewrite <- Hc.
    + left. left. rewrite Hc in Hrank.
      pose proof (rank_previous_step (currentStep (ui sc))). lia.
    + left. right. exists t. split; [by eapply list_elem_of_lookup_2 |].
      unfold task_rank. by rewrite Htg.
  - destruct (step_pending sc e sc' Hs)
      as [Hp | [[i Hp] | [Hp | (t0 & Hsub & Hpass & Hp)]]].
    + left. right. exists t. by rewrite <- Hp.
    + left. right. exists t. split; [| done].
      rewrite Hp in Hin. eapply elem_of_sublist; [done | apply sublist_delete].
    + rewrite Hp, elem_of_app, list_elem_of_singleton in Hin.
      destruct Hin as [Hin | ->].
      * left. right. by exists t.
      * left. left. cbn in Ht. lia.
    + rewrite Hp, elem_of_app, list_elem_of_singleton in Hin.
      destruct Hin as [Hin | ->].
      * left. right. by exists t.
      * destruct (step_submission toLowerCase pr sc e sc' t0 Hs Hsub)
          as (_ & Htg & _).
        unfold task_rank in Ht. rewrite Htg in Ht.
        apply rank_next_step in Ht as [Ht | ->].
        -- left. by left.
        -- right. by exists t0.
Qed.

Lemma submitted_snoc es e s :
  submitted toLowerCase pr es s -> submitted toLowerCase pr (es ++ [e]) s.
Proof.
  intros (es1 & e0 & es2 & sc & t & -> & Hrest).
  exists es1, e0, (es2 ++ [e]), sc, t. split; [| done].
  by rewrite <- app_assoc.
Qed.

Lemma covered_is_submitted es sc s :
  run toLowerCase pr mounted es = Some sc ->
  s <> Step_email -> covers sc s -> submitted toLowerCase pr es s.
Proof.
  revert sc. induction es as [| e es IH] using rev_ind; intros sc Hrun Hs Hc.
  - simpl in Hrun. injection Hrun as <-. exfalso.
    destruct Hc as [Hc | (t & Hin & _)].
    + destruct s; cbn in Hc; try lia. done.
    + by apply elem_of_nil in Hin.
  - rewrite run_app in Hrun.
    destruct (run toLowerCase pr mounted es) as [sc0 |] eqn:E; [| done].
    simpl in Hrun.
    destruct (step toLowerCase pr sc0 e) as [sc1 |] eqn:Es; [| done].
    injection Hrun as <-.
    destruct (step_covers sc0 e sc1 s Es Hc) as [Hc0 | (t & Hsub & Hpass & Htg)].
    + apply submitted_snoc. by apply (IH sc0).
    + by exists es, e, [], sc0, t.
Qed.

(** X13. Whatever the order of the events, the wizard shows a step only if
    earlier in the run the handler that leads to that step, and the handler
    that leads to each step before it, was called with input that passed
    its validation. *)
Theorem wizard_needs_validation (es : list event) (sc : screen)
    (s : ForgotPasswordStep) :
  run toLowerCase pr mounted es = Some sc ->
  s <> Step_email ->
  (rank s <= rank (currentStep (ui sc)))%nat ->
  submitted toLowerCase pr es s.
Proof.
  intros Hrun Hs Hr. apply (covered_is_submitted es sc s Hrun Hs). by left.
Qed.

End Steps.

(** The theorem on the email field after a send of the empty email. *)
Lemma change_clears_error_witness :
  errors (ui (handleSendOTP mounted)) !! js "email"
    = Some (js "Email is required") /\
  exists sc',
    step ascii_toLowerCase {| navigation := true |} (handleSendOTP mounted)
      (ChangeEmail (js "a")) = Some sc' /\
    no_error_shown (errors (ui sc')) (js "email").
Proof.
  split; [reflexivity |]. eexists. split; [vm_compute; reflexivity |].
  eapply (change_clears_error ascii_toLowerCase {| navigation := true |}
            (handleSendOTP mounted) (ChangeEmail (js "a")));
    [vm_compute; reflexivity | reflexivity].
Defined.

(** The theorem on an email typed with capitals and spaces around it. *)
Lemma email_field_trimmed_witness :
  exists sc,
    run ascii_toLowerCase {| navigation := true |} mounted
      [ChangeEmail (js "  Ann@Example.com ")] = Some sc /\
    email (ui sc) = js "ann@example.com" /\
    trim (email (ui sc)) = email (ui sc).
Proof.
  eexists. split; [vm_compute; reflexivity |]. split; [reflexivity |].
  eapply (email_field_trimmed ascii_toLowerCase {| navigation := true |}).
  exists [ChangeEmail (js "  Ann@Example.com ")]. vm_compute. reflexivity.
Defined.

(** The theorem on the screen just after the OTP was sent. *)
Lemma resend_countdown_bounded_witness :
  exists sc,
    run ascii_toLowerCase {| navigation := true |} mounted
      [ChangeEmail (js "ann@example.com"); PressSend; TimerElapsed 0] = Some sc /\
    resendTimer (ui sc) = 60 /\
    step ascii_toLowerCase {| navigation := true |} sc PressResend = None.
Proof.
  eexists. split; [vm_compute; reflexivity |]. split; [reflexivity |].
  match goal with
  | |- step _ _ ?sc _ = None =>
      destruct (resend_countdown_bounded ascii_toLowerCase
                  {| navigation := true |} sc) as (_ & Hpos & _)
  end.
  - exists [ChangeEmail (js "ann@example.com"); PressSend; TimerElapsed 0].
    vm_compute. reflexivity.
  - destruct Hpos as [Hno _]; [reflexivity | exact Hno].
Defined.

(** The theorem on the screen just after the send button was pressed. *)
Lemma loading_always_ends_witness :
  exists sc,
    run ascii_toLowerCase {| navigation := true |} mounted
      [ChangeEmail (js "ann@example.com"); PressSend] = Some sc /\
    isLoading (ui sc) = true /\
    exists i t sc',
      pending sc !! i = Some t /\
      step ascii_toLowerCase {| navigation := true |} sc (TimerElapsed i)
        = Some sc' /\
      isLoading (ui sc') = false.
Proof.
  eexists. split; [vm_compute; reflexivity |]. split; [reflexivity |].
  match goal with
  | |- exists i t sc', pending ?sc !! i = Some t /\ _ =>
      destruct (loading_always_ends ascii_toLowerCase
                  {| navigation := true |} sc)
        as (i & t & sc' & Hi & _ & Hs & Hl)
  end.
  - exists [ChangeEmail (js "ann@example.com"); PressSend].
    vm_compute. reflexivity.
  - reflexivity.
  - exists i, t, sc'. split; [exact Hi |]. split; [exact Hs | exact Hl].
Defined.

(** The theorem on a run that reaches the new-password step: a six-digit
    OTP was submitted on the way. *)
Lemma wizard_needs_validation_witness :
  submitted ascii_toLowerCase {| navigation := true |}
    [ChangeEmail (js "ann@example.com"); PressSend; TimerElapsed 0;
     ChangeOtp (js "123456"); PressVerify; TimerElapsed 0]
    Step_newPassword.
Proof.
  eapply (wizard_needs_validation ascii_toLowerCase {| navigation := true |}).
  - vm_compute. reflexivity.
  - discriminate.
  - vm_compute. lia.
Defined.

End MoreForgotPassword.

(* ===================================================================== *)
(** * Further properties: the device between two launches *)
(* ===================================================================== *)

Section MoreLogin.
Import JS Platform LoginScreen Launches.

Lemma js_false_is_not_true : Some (js "false") <> Some (js "true").
Proof. intros H. vm_compute in H. discriminate. Qed.

(** X14. Remember-me round trip. If both fields are filled in and the next
    four promises of the native modules resolve, the mount that follows a
    login pre-fills exactly the credentials of that login when [rememberMe]
    was set, and pre-fills nothing when it was not, whatever the device
    held before. *)
Theorem remember_me_round_trip (pr : props) (st : state) (w : world) :
  username st <> [] -> password st <> [] ->
  next_resolve 4 w = true ->
  (loadStoredCredentials initial (handleLogin pr st w).2).1 =
  Returned (if rememberMe st
            then setRememberMe true
                   (setPassword (password st) (setUsername (username st) initial))
            else initial).
Proof.
  intros Hu Hp. apply truthy_true in Hu, Hp.
  unfold next_resolve, handleLogin, handleLogin_try, loadStoredCredentials.
  rewrite Hu, Hp. cbn [negb orb andb].
  destruct w as [kc sto rej lg].
  unfold try_catch, bind, emit, ret, Keychain_setGenericPassword,
    Keychain_resetGenericPassword, Keychain_getGenericPassword,
    AsyncStorage_setItem, AsyncStorage_getItem, native.
  destruct (rememberMe st), (navigation pr), (onLoginSuccess pr);
    destruct rej as [| [] [| [] [| [] [| [] rej]]]]; cbn; intros Hres;
    try discriminate;
    rewrite lookup_insert_eq;
    first [ rewrite bool_decide_eq_true_2 by done
          | rewrite bool_decide_eq_false_2 by apply js_false_is_not_true ];
    reflexivity.
Qed.

(** The theorem on a remembered login of [alice] on a device that held
    other credentials. *)
Lemma remember_me_round_trip_witness :
  let pr := {| onLoginSuccess := false; navigation := true |} in
  let st := {| username := js "alice"; password := js "secret";
               rememberMe := true; showPassword := false |} in
  let w := {| keychain := Some (js "bob", js "hunter2");
              storage := {[ js "rememberMe" := js "false" ]};
              rejections := []; log := [] |} in
  (loadStoredCredentials initial (handleLogin pr st w).2).1 = Returned st.
Proof.
  intros pr st w.
  rewrite (remember_me_round_trip pr st w); [reflexivity | | | reflexivity];
    discriminate.
Defined.

Lemma handleLogin_other_keys pr st w k :
  k <> js "rememberMe" ->
  storage (handleLogin pr st w).2 !! k = storage w !! k.
Proof.
  intros Hk.
  destruct (username st) as [| c u] eqn:Eu.
  { by rewrite handleLogin_empty by auto. }
  destruct (password st) as [| d p] eqn:Ep.
  { by rewrite handleLogin_empty by auto. }
  destruct (handleLogin_filled pr st w) as (_ & _ & _ & Hframe);
    [by rewrite Eu | by rewrite Ep | by apply Hframe].
Qed.

Lemma userToken_is_not_rememberMe : js "userToken" <> js "rememberMe".
Proof. intros H. vm_compute in H. discriminate. Qed.

(** X15. A login never writes the user token: whatever the login does, the
    value under ['userToken'] is unchanged, so the next launch of the app
    starts on the same route as it would have without the login. *)
Theorem login_keeps_initial_route (pr : props) (st : state) (w : world)
    (r : list bool) :
  storage (handleLogin pr st w).2 !! js "userToken"
    = storage w !! js "userToken" /\
  (App.holds_token (handleLogin pr st w).2 <-> App.holds_token w) /\
  App.render
    (App.comp (App.checkLoginStatus (relaunch r (handleLogin pr st w).2)).1)
  = App.render (App.comp (App.checkLoginStatus (relaunch r w)).1).
Proof.
  pose proof (handleLogin_other_keys pr st w (js "userToken")
                userToken_is_not_rememberMe) as Hk.
  split; [done |]. split.
  - unfold App.holds_token. by rewrite Hk.
  - rewrite !checkLoginStatus_comp. unfold relaunch, App.read_rejects.
    cbn. by rewrite Hk.
Qed.

(** X16. The two mount effects only read: whatever the promises do,
    [loadStoredCredentials] and [checkLoginStatus] leave the keychain and
    AsyncStorage as they are and log no write. *)
Theorem mount_effects_only_read (st : state) (w : world) :
  (keychain (loadStoredCredentials st w).2 = keychain w /\
   storage (loadStoredCredentials st w).2 = storage w /\
   filter is_write (log (loadStoredCredentials st w).2)
     = filter is_write (log w)) /\
  (keychain (App.checkLoginStatus w).2 = keychain w /\
   storage (App.checkLoginStatus w).2 = storage w /\
   filter is_write (log (App.checkLoginStatus w).2)
     = filter is_write (log w)).
Proof.
  destruct w as [kc sto rej lg]. split.
  - unfold loadStoredCredentials, try_catch, bind, emit, ret,
      AsyncStorage_getItem, Keychain_getGenericPassword, native.
    destruct rej as [| [] [| [] rej]]; cbn;
      repeat case_bool_decide; cbn;
      try destruct kc as [[? ?] |]; cbn;
      rewrite ?filter_app, ?app_nil_r; done.
  - unfold App.checkLoginStatus, App.advance, AsyncStorage_getItem, native.
    cbn. destruct rej as [| [] rej]; cbn;
      rewrite ?filter_app, ?app_nil_r; done.
Qed.

End MoreLogin.
